(** * Dairy Expense Tracker: the business logic of [src/App.jsx]

    A shallow embedding of the rate timeline, the entry ledger, the two
    aggregations, the calendar grid and the LocalStorage mirror, followed by
    the properties the specification states about them. *)

From Stdlib Require Import ZArith List String Ascii Bool Lia Permutation Sorted.
From Stdlib Require Import QArith Qcanon.
From Stdlib Require Import Floats.
From Stdlib Require Import DecimalString.
Import ListNotations.

Set Warnings "-register-all,-inexact-float".

Open Scope string_scope.
Open Scope list_scope.

(** ** JavaScript numbers

    Every weight, rate and cost in the program is a JavaScript [Number].
    The operations the program applies to them are collected in one
    interface, with two instances: [binary64], the IEEE 754 doubles the
    program really computes with, and [exact], rational arithmetic without
    rounding, in which the algebraic laws of the specification hold. *)

Class JSNumber : Type := {
  num : Type;
  num_zero : num;
  num_add : num -> num -> num;          (* x + y *)
  num_mul : num -> num -> num;          (* x * y *)
  num_leb : num -> num -> bool;         (* x <= y *)
  isNaN : num -> bool;                  (* isNaN(x) *)
  isFinite : num -> bool;               (* Number.isFinite(x) *)
  (* what JSON.parse reads back from the text JSON.stringify writes for x;
     None is the JSON value null *)
  jsonNumber : num -> option num
}.

Declare Scope num_scope.
Delimit Scope num_scope with num.
Notation "x + y" := (num_add x y) : num_scope.
Notation "x * y" := (num_mul x y) : num_scope.
Notation "x <=? y" := (num_leb x y) : num_scope.

(** The arithmetic of the program: binary64 floating point.  JSON has no
    notation for NaN and the infinities (they are written as null) and
    writes both zeros as 0. *)
#[export] Instance binary64 : JSNumber := {|
  num := float;
  num_zero := PrimFloat.zero;
  num_add := PrimFloat.add;
  num_mul := PrimFloat.mul;
  num_leb := PrimFloat.leb;
  isNaN := PrimFloat.is_nan;
  isFinite := PrimFloat.is_finite;
  jsonNumber := fun x =>
    match PrimFloat.classify x with
    | NaN | PInf | NInf => None
    | PZero | NZero => Some PrimFloat.zero
    | _ => Some x
    end
|}.

(** Arithmetic without rounding, on canonical rationals. *)
#[export] Instance exact : JSNumber := {|
  num := Qc;
  num_zero := Q2Qc 0;
  num_add := Qcplus;
  num_mul := Qcmult;
  num_leb := fun x y => Qle_bool (this x) (this y);
  isNaN := fun _ => false;
  isFinite := fun _ => true;
  jsonNumber := fun x => Some x
|}.

(** The laws of exact arithmetic that the aggregation identities rest on. *)
Class ExactArith (N : JSNumber) : Prop := {
  num_add_assoc : forall x y z : num, (x + (y + z) = (x + y) + z)%num;
  num_add_comm : forall x y : num, (x + y = y + x)%num;
  num_add_zero_l : forall x : num, (num_zero + x = x)%num;
  num_mul_zero_l : forall x : num, (num_zero * x = num_zero)%num
}.

(** A number the specification calls a positive finite number. *)
Definition positiveFinite `{JSNumber} (x : num) : bool :=
  isFinite x && negb (isNaN x) && negb (x <=? num_zero)%num.

(** ** Date keys

    Dates are zero-padded [YYYY-MM-DD] strings.  [<=] on strings compares
    code units lexicographically; [localeCompare] orders such keys (digits
    and hyphens) the same way. *)

Definition dateKey := string.

Definition key_leb (a b : dateKey) : bool := String.leb a b.

Definition localeCompare (a b : dateKey) : comparison := String.compare a b.

(** [!s] for a string: only the empty string is falsy. *)
Definition falsy (s : string) : bool := String.eqb s "".

(** ** [Array.prototype.sort] with a comparator

    The sort of the language is stable; a stable sort has one possible
    result, the one this insertion sort computes. *)

Section Sort.
Context {A : Type} (cmp : A -> A -> comparison).

Fixpoint sort_insert (x : A) (l : list A) : list A :=
  match l with
  | [] => [x]
  | y :: t =>
      match cmp x y with
      | Gt => y :: sort_insert x t
      | _ => x :: l
      end
  end.

Definition sort (l : list A) : list A := fold_right sort_insert [] l.
End Sort.

(** ** The application *)

Section App.
Context {N : JSNumber}.
Local Open Scope num_scope.

(** A rate record of the timeline: [{ effectiveFrom, cow, buffalo }]. *)
Record Rate : Type := mkRate {
  effectiveFrom : dateKey;
  cow : num;
  buffalo : num
}.

(** An entry of the ledger: [{ date, type, kg }]. *)
Record Entry : Type := mkEntry {
  date : dateKey;
  type : string;
  kg : num
}.

(** The drafts the dialogs hand to [addEntry] and [addRate].  A numeric
    field holds the number that [Number(...)] makes of the field's text
    (NaN when the text is not a numeric literal). *)
Record EntryDraft : Type := mkEntryDraft {
  draft_date : dateKey;
  draft_type : string;
  draft_kg : num
}.

Record RateDraft : Type := mkRateDraft {
  draft_effectiveFrom : dateKey;
  draft_cow : num;
  draft_buffalo : num
}.

(** The state of the [App] component that the business logic reads and
    writes. *)
Record AppState : Type := mkApp {
  entries : list Entry;
  rates : list Rate;
  showEntryDialog : bool;
  showRateDialog : bool
}.

Definition setEntries (f : list Entry -> list Entry) (s : AppState) : AppState :=
  mkApp (f (entries s)) (rates s) (showEntryDialog s) (showRateDialog s).

Definition setRates (f : list Rate -> list Rate) (s : AppState) : AppState :=
  mkApp (entries s) (f (rates s)) (showEntryDialog s) (showRateDialog s).

Definition setShowEntryDialog (b : bool) (s : AppState) : AppState :=
  mkApp (entries s) (rates s) b (showRateDialog s).

Definition setShowRateDialog (b : bool) (s : AppState) : AppState :=
  mkApp (entries s) (rates s) (showEntryDialog s) b.

(** [sortedRates]: a copy of [rates] sorted by [effectiveFrom]. *)
Definition compareRates (a b : Rate) : comparison :=
  localeCompare (effectiveFrom a) (effectiveFrom b).

Definition sortedRates (rates : list Rate) : list Rate :=
  sort compareRates rates.

(** [latestRate = sortedRates[sortedRates.length - 1]]; [None] is
    [undefined]. *)
Definition latestRate (rates : list Rate) : option Rate :=
  let sorted := sortedRates rates in
  nth_error sorted (List.length sorted - 1).

(** The loop of [rateForDate]: [found] is updated while the record starts
    on or before [dateKey]; the first later record ends the loop. *)
Fixpoint rateScan (found : option Rate) (sorted : list Rate) (dateKey : dateKey)
  : option Rate :=
  match sorted with
  | [] => found
  | r :: rest =>
      if key_leb (effectiveFrom r) dateKey
      then rateScan (Some r) rest dateKey
      else found
  end.

Definition rateForDate (rates : list Rate) (dateKey : dateKey) : option Rate :=
  rateScan None (sortedRates rates) dateKey.

(** How a call of [addEntry] ends: the entry is appended, or the call
    returns silently on invalid input, or it alerts that no rate covers
    the date. *)
Inductive EntryOutcome : Type :=
| EntrySaved
| EntryInvalid          (* the specification's ValidationError *)
| EntryRateMissing.     (* the specification's RateMissingError *)

Definition addEntry (draft : EntryDraft) (s : AppState) : AppState * EntryOutcome :=
  let clean := mkEntry (draft_date draft) (draft_type draft) (draft_kg draft) in
  if falsy (date clean) || isNaN (kg clean) || (kg clean <=? num_zero)
  then (s, EntryInvalid)
  else
    match rateForDate (rates s) (date clean) with
    | None => (s, EntryRateMissing)
    | Some _ =>
        (setShowEntryDialog false (setEntries (fun cur => cur ++ [clean]) s),
         EntrySaved)
    end.

(** How a call of [addRate] ends: the record is appended, or one of the
    two alerts is shown. *)
Inductive RateOutcome : Type :=
| RateSaved
| RateInvalid           (* "Please fill valid numbers for both rates." *)
| RateNotAfterLatest.   (* "New rate must start after ..." *)

Definition addRate (draft : RateDraft) (s : AppState) : AppState * RateOutcome :=
  let clean :=
    mkRate (draft_effectiveFrom draft) (draft_cow draft) (draft_buffalo draft) in
  if falsy (effectiveFrom clean) || isNaN (cow clean) || isNaN (buffalo clean)
     || (cow clean <=? num_zero) || (buffalo clean <=? num_zero)
  then (s, RateInvalid)
  else
    match latestRate (rates s) with
    | Some latest =>
        if key_leb (effectiveFrom clean) (effectiveFrom latest)
        then (s, RateNotAfterLatest)
        else (setShowRateDialog false (setRates (fun cur => cur ++ [clean]) s),
              RateSaved)
    | None =>
        (setShowRateDialog false (setRates (fun cur => cur ++ [clean]) s),
         RateSaved)
    end.

(** *** Aggregation *)

Definition isCow (e : Entry) : bool := String.eqb (type e) "cow".

(** The result of [totals]: [{ cowKg, bufKg, kg, cost }]. *)
Record Totals : Type := mkTotals {
  totals_cowKg : num;
  totals_bufKg : num;
  totals_kg : num;
  totals_cost : num
}.

(** One turn of the loop of [totals] on the running
    [(cowKg, bufKg, cost)]. *)
Definition totalsStep (rates : list Rate) (acc : num * num * num) (e : Entry)
  : num * num * num :=
  let '(cowKg, bufKg, cost) := acc in
  match rateForDate rates (date e) with
  | None => acc                                   (* if (!r) continue; *)
  | Some r =>
      let cowKg' := if isCow e then cowKg + kg e else cowKg in
      let bufKg' := if isCow e then bufKg else bufKg + kg e in
      let perKg := if isCow e then cow r else buffalo r in
      (cowKg', bufKg', cost + perKg * kg e)
  end.

Definition totals (entries : list Entry) (rates : list Rate) : Totals :=
  let '(cowKg, bufKg, cost) :=
    fold_left (totalsStep rates) entries (num_zero, num_zero, num_zero) in
  mkTotals cowKg bufKg (cowKg + bufKg) cost.

(** A value of [dayMap]: [{ cowKg, bufKg, cost }]. *)
Record DaySum : Type := mkDaySum {
  cowKg : num;
  bufKg : num;
  cost : num
}.

(** A [Map] from date keys, in insertion order. *)
Definition DayMap := list (dateKey * DaySum).

Fixpoint map_get (m : DayMap) (k : dateKey) : option DaySum :=
  match m with
  | [] => None
  | (k', v) :: rest => if String.eqb k' k then Some v else map_get rest k
  end.

(** [map.set(k, v)]: an existing key keeps its place. *)
Fixpoint map_set (m : DayMap) (k : dateKey) (v : DaySum) : DayMap :=
  match m with
  | [] => [(k, v)]
  | (k', v') :: rest =>
      if String.eqb k' k then (k', v) :: rest else (k', v') :: map_set rest k v
  end.

(** The unit price of [dayMap]: [r?.cow ?? 0] or [r?.buffalo ?? 0]. *)
Definition dayPerKg (r : option Rate) (e : Entry) : num :=
  if isCow e
  then match r with Some r => cow r | None => num_zero end
  else match r with Some r => buffalo r | None => num_zero end.

(** One turn of the loop of [dayMap]. *)
Definition dayMapStep (rates : list Rate) (m : DayMap) (e : Entry) : DayMap :=
  let r := rateForDate rates (date e) in
  let perKg := dayPerKg r e in
  let obj :=
    match map_get m (date e) with
    | Some o => o
    | None => mkDaySum num_zero num_zero num_zero
    end in
  let obj :=
    if isCow e
    then mkDaySum (cowKg obj + kg e) (bufKg obj) (cost obj)
    else mkDaySum (cowKg obj) (bufKg obj + kg e) (cost obj) in
  let obj := mkDaySum (cowKg obj) (bufKg obj) (cost obj + perKg * kg e) in
  map_set m (date e) obj.

(** [dayMap], as a function of the entries of the month shown. *)
Definition dayMap (monthEntries : list Entry) (rates : list Rate) : DayMap :=
  fold_left (dayMapStep rates) monthEntries [].

(** The sum of the per-day costs, over the days of a [dayMap] in the
    order of the map. *)
Definition sumDayCost (m : DayMap) : num :=
  fold_left (fun acc kv => acc + cost (snd kv)) m num_zero.

End App.


(** ** LocalStorage

    [JSON.stringify] and [JSON.parse] are the platform's.  A stored text is
    represented by the value [JSON.parse] reads from it, so that writing a
    value and reading it back is the map [jsonValue] below: it is the
    identity except where JSON has no notation for a number. *)

Section Storage.
Context {N : JSNumber}.

(** The values that the program stores and reads back. *)
Inductive JSValue : Type :=
| JNull
| JNumber (x : num)
| JString (s : string)
| JArray (items : list JSValue)
| JObject (fields : list (string * JSValue)).

(** [JSON.parse(JSON.stringify(v))]. *)
Fixpoint jsonValue (v : JSValue) : JSValue :=
  match v with
  | JNull => JNull
  | JNumber x =>
      match jsonNumber x with
      | Some y => JNumber y
      | None => JNull
      end
  | JString s => JString s
  | JArray items => JArray (map jsonValue items)
  | JObject fields =>
      JObject (map (fun kv => let '(k, w) := kv in (k, jsonValue w)) fields)
  end.

(** What a key of the store holds: a text that parses to a value, a text
    that [JSON.parse] rejects, or the empty text. *)
Inductive Stored : Type :=
| JsonText (v : JSValue)
| Unparsable
| EmptyText.

(** [localStorage]: [None] is the [null] that [getItem] returns for an
    absent key. *)
Definition Store := string -> option Stored.

Definition getItem (st : Store) (key : string) : option Stored := st key.

Definition setItem (st : Store) (key : string) (item : Stored) : Store :=
  fun k => if String.eqb k key then Some item else st k.

Definition LS_KEYS_entries : string := "dairy.entries.v2".
Definition LS_KEYS_rates : string := "dairy.rates.v2".

(** [loadLS]: the fallback when the key is absent or its text is empty
    (a falsy [raw]) or [JSON.parse] throws. *)
Definition loadLS (st : Store) (key : string) (fallback : JSValue) : JSValue :=
  match getItem st key with
  | Some (JsonText v) => v
  | Some Unparsable => fallback
  | Some EmptyText => fallback
  | None => fallback
  end.

Definition saveLS (st : Store) (key : string) (value : JSValue) : Store :=
  setItem st key (JsonText (jsonValue value)).

(** The objects the program builds, as values. *)
Definition entryValue (e : Entry) : JSValue :=
  JObject [("date", JString (date e)); ("type", JString (type e));
           ("kg", JNumber (kg e))].

Definition rateValue (r : Rate) : JSValue :=
  JObject [("effectiveFrom", JString (effectiveFrom r));
           ("cow", JNumber (cow r)); ("buffalo", JNumber (buffalo r))].

Definition entriesValue (l : list Entry) : JSValue := JArray (map entryValue l).
Definition ratesValue (l : list Rate) : JSValue := JArray (map rateValue l).

(** The two effects that mirror the state into the store. *)
Definition persist (s : AppState) (st : Store) : Store :=
  saveLS (saveLS st LS_KEYS_entries (entriesValue (entries s)))
         LS_KEYS_rates (ratesValue (rates s)).

(** A number that JSON writes and reads back unchanged. *)
Definition jsonExact (x : num) : Prop := jsonNumber x = Some x.

End Storage.

(** ** Dates and the calendar grid

    A [Date] is kept at the precision of a calendar day of the proleptic
    Gregorian calendar: the year, the month index (0 is January) and the day
    of the month, as its getters return them.  The time of day, the time
    zone, the range limit of [Date] and the constructor's reading of the
    years 0 to 99 as 1900 to 1999 are outside this model. *)

Section Calendar.
Local Open Scope Z_scope.

Record Date : Type := mkDate {
  getFullYear : Z;
  getMonth : Z;
  getDate : Z
}.

Definition isLeapYear (y : Z) : bool :=
  (y mod 4 =? 0)%Z && (negb (y mod 100 =? 0)%Z || (y mod 400 =? 0)%Z).

Definition daysInMonth (y m : Z) : Z :=
  match m with
  | 1 => if isLeapYear y then 29 else 28
  | 3 | 5 | 8 | 10 => 30
  | _ => 31
  end%Z.

(** The day number of the first day of year [y], counted from 1 January
    1970. *)
Definition dayFromYear (y : Z) : Z :=
  (365 * (y - 1970) + (y - 1969) / 4 - (y - 1901) / 100 + (y - 1601) / 400)%Z.

(** The days of year [y] before its month [m]. *)
Definition daysBeforeMonth (y m : Z) : Z :=
  let leap := if isLeapYear y then 1 else 0 in
  match m with
  | 0 => 0
  | 1 => 31
  | 2 => 59 + leap
  | 3 => 90 + leap
  | 4 => 120 + leap
  | 5 => 151 + leap
  | 6 => 181 + leap
  | 7 => 212 + leap
  | 8 => 243 + leap
  | 9 => 273 + leap
  | 10 => 304 + leap
  | _ => 334 + leap
  end%Z.

Definition dayNumber (d : Date) : Z :=
  (dayFromYear (getFullYear d) + daysBeforeMonth (getFullYear d) (getMonth d)
   + (getDate d - 1))%Z.

(** [getDay]: 0 is Sunday; day number 0 was a Thursday. *)
Definition getDay (d : Date) : Z := ((dayNumber d + 4) mod 7)%Z.

Definition nextDay (d : Date) : Date :=
  let '(mkDate y m dd) := d in
  if (dd <? daysInMonth y m)%Z then mkDate y m (dd + 1)
  else if (m <? 11)%Z then mkDate y (m + 1) 1
  else mkDate (y + 1) 0 1.

Definition prevDay (d : Date) : Date :=
  let '(mkDate y m dd) := d in
  if (1 <? dd)%Z then mkDate y m (dd - 1)
  else if (0 <? m)%Z then mkDate y (m - 1) (daysInMonth y (m - 1))
  else mkDate (y - 1) 11 31.

Definition addDays (k : Z) (d : Date) : Date :=
  if (0 <=? k)%Z then Nat.iter (Z.to_nat k) nextDay d
  else Nat.iter (Z.to_nat (- k)) prevDay d.

(** [new Date(y, m, d)]: a month index outside 0..11 carries into the year,
    a day outside the month carries into the neighbouring months. *)
Definition newDate (y m d : Z) : Date :=
  addDays (d - 1) (mkDate (y + m / 12) (m mod 12) 1).

(** [cursor.setDate(k)]. *)
Definition setDate (cursor : Date) (k : Z) : Date :=
  newDate (getFullYear cursor) (getMonth cursor) k.

Definition startOfMonth (date : Date) : Date :=
  newDate (getFullYear date) (getMonth date) 1.

Definition endOfMonth (date : Date) : Date :=
  newDate (getFullYear date) (getMonth date + 1) 0.

(** [Math.ceil(a / b)] for integers [a] and a positive [b]. *)
Definition ceilDiv (a b : Z) : Z := (- ((- a) / b))%Z.

(** The inner loop of [daysMatrix]: [c] cells pushed from [cursor]; the
    cursor is returned as the loop leaves it. *)
Fixpoint fillRow (c : nat) (cursor : Date) : list Date * Date :=
  match c with
  | O => ([], cursor)
  | S c' =>
      let '(row, cursor') := fillRow c' (setDate cursor (getDate cursor + 1)) in
      (cursor :: row, cursor')
  end.

(** The outer loop: [r] rows of seven cells. *)
Fixpoint fillRows (r : nat) (cursor : Date) : list (list Date) :=
  match r with
  | O => []
  | S r' =>
      let '(row, cursor') := fillRow 7 cursor in
      row :: fillRows r' cursor'
  end.

Definition startIdxOf (start : Date) : Z := ((getDay start + 6) mod 7)%Z.

Definition daysMatrix (activeDate : Date) : list (list Date) :=
  let start := startOfMonth activeDate in
  let end_ := endOfMonth activeDate in
  let startIdx := startIdxOf start in                   (* Monday=0 *)
  let totalDays := (startIdx + getDate end_)%Z in
  let rows := ceilDiv totalDays 7 in
  let cursor := setDate start (getDate start - startIdx) in
  fillRows (Z.to_nat rows) cursor.

(** The dates a [Date] object can hold. *)
Definition validDate (d : Date) : Prop :=
  (0 <= getMonth d <= 11 /\ 1 <= getDate d <= daysInMonth (getFullYear d) (getMonth d))%Z.

End Calendar.

(** ** Vocabulary of the properties *)

(** [<] on date keys. *)
Definition key_ltb (a b : dateKey) : bool := String.ltb a b.

(** Date keys in strictly increasing order: each one is before all that
    follow it. *)
Definition increasing (keys : list dateKey) : Prop :=
  StronglySorted (fun a b => key_ltb a b = true) keys.

Section Runs.
Context {N : JSNumber}.
Local Open Scope num_scope.

(** A sequence of calls of [addRate], each on the state the previous one
    left. *)
Definition addRates (drafts : list RateDraft) (s : AppState) : AppState :=
  fold_left (fun s d => fst (addRate d s)) drafts s.

(** The last record of the timeline in insertion order. *)
Definition lastInserted (rates : list Rate) : option Rate :=
  nth_error rates (List.length rates - 1).

(** A draft that passes the checks of [addRate] on its own fields. *)
Definition rateDraftAccepted (d : RateDraft) : bool :=
  negb (falsy (draft_effectiveFrom d) || isNaN (draft_cow d) || isNaN (draft_buffalo d)
        || (draft_cow d <=? num_zero) || (draft_buffalo d <=? num_zero)).

(** A draft that passes the checks of [addEntry] on its own fields. *)
Definition entryDraftAccepted (d : EntryDraft) : bool :=
  negb (falsy (draft_date d) || isNaN (draft_kg d) || (draft_kg d <=? num_zero)).

(** The entries whose date some rate covers. *)
Definition covered (rates : list Rate) (e : Entry) : bool :=
  match rateForDate rates (date e) with
  | Some _ => true
  | None => false
  end.

(** The amount of one entry at the rate in effect on its date. *)
Definition lineCost (r : Rate) (e : Entry) : num :=
  (if isCow e then cow r else buffalo r) * kg e.

(** The bucket of a date before an entry is folded into it. *)
Definition bucketOf (m : DayMap) (k : dateKey) : DaySum :=
  match map_get m k with
  | Some o => o
  | None => mkDaySum num_zero num_zero num_zero
  end.

(** One rate record starts on or before another. *)
Definition rate_le (a b : Rate) : Prop :=
  key_leb (effectiveFrom a) (effectiveFrom b) = true.

End Runs.

(** ** Sample data

    The rates of the specification's scenario, in the arithmetic of the
    program. *)

Definition ratesJanuary : list (@Rate binary64) :=
  [@mkRate binary64 "2024-01-01" 50%float 70%float].

Definition stateJanuary : @AppState binary64 :=
  @mkApp binary64 [] ratesJanuary true true.

(** An entry dated before the first rate. *)
Definition entryDecember : @Entry binary64 :=
  @mkEntry binary64 "2023-12-31" "cow" 1%float.

(** Drafts whose number is [Infinity]. *)
Definition entryDraftInfinity : @EntryDraft binary64 :=
  @mkEntryDraft binary64 "2024-01-02" "cow" infinity.

Definition rateDraftInfinity : @RateDraft binary64 :=
  @mkRateDraft binary64 "2024-02-01" infinity 75%float.

(** Three purchases of cow milk on two days. *)
Definition ledgerTwoDays : list (@Entry binary64) :=
  [@mkEntry binary64 "2024-01-01" "cow" 0.2%float;
   @mkEntry binary64 "2024-01-02" "cow" 1.1%float;
   @mkEntry binary64 "2024-01-02" "cow" 1.1%float].

(** The ledger after the draft with an infinite weight has been saved. *)
Definition ledgerInfinity : list (@Entry binary64) :=
  entries (fst (addEntry entryDraftInfinity stateJanuary)).

(** A store with nothing in it. *)
Definition emptyStore : @Store binary64 := fun _ => None.

(** The application before anything is saved. *)
Definition stateEmpty : @AppState binary64 := @mkApp binary64 [] [] false false.

(** The rate drafts of the specification's scenarios: the first rates, a
    second record for the same day, and the rates of February. *)
Definition scenarioRateDrafts : list (@RateDraft binary64) :=
  [@mkRateDraft binary64 "2024-01-01" 50%float 70%float;
   @mkRateDraft binary64 "2024-01-01" 55%float 75%float;
   @mkRateDraft binary64 "2024-02-01" 55%float 75%float].

(** An entry draft dated on the day the first rates start. *)
Definition entryDraftNewYear : @EntryDraft binary64 :=
  @mkEntryDraft binary64 "2024-01-01" "cow" 2%float.

(** The state of January with one purchase in the ledger. *)
Definition stateJanuaryOnePurchase : @AppState binary64 :=
  fst (addEntry entryDraftNewYear stateJanuary).

(** The sample ledger and rates in exact arithmetic. *)
Definition ratesJanuaryExact : list (@Rate exact) :=
  [@mkRate exact "2024-01-01" (Q2Qc (50 # 1)) (Q2Qc (70 # 1))].

Definition ledgerTwoDaysExact : list (@Entry exact) :=
  [@mkEntry exact "2024-01-01" "cow" (Q2Qc (2 # 10));
   @mkEntry exact "2024-01-02" "cow" (Q2Qc (11 # 10));
   @mkEntry exact "2024-01-02" "cow" (Q2Qc (11 # 10))].

(** A day of February 2024. *)
Definition midFebruary2024 : Date := mkDate 2024 1 15.

(** ** Sessions

    What the user does to the data: one call of [addEntry] or of [addRate]
    after the other, each on the state the previous one left. *)

Section Sessions.
Context {N : JSNumber}.
Local Open Scope num_scope.

Inductive Action : Type :=
| SaveEntry (draft : EntryDraft)      (* the button "Save Entry" *)
| SaveRates (draft : RateDraft).      (* the button "Save Rates" *)

Definition act (a : Action) (s : AppState) : AppState :=
  match a with
  | SaveEntry draft => fst (addEntry draft s)
  | SaveRates draft => fst (addRate draft s)
  end.

Definition run (actions : list Action) (s : AppState) : AppState :=
  fold_left (fun s a => act a s) actions s.

(** A stored entry that passes the checks of [addEntry]. *)
Definition entryChecked (e : Entry) : bool :=
  negb (falsy (date e) || isNaN (kg e) || (kg e <=? num_zero)).

(** A stored rate record that passes the checks of [addRate]. *)
Definition rateChecked (r : Rate) : bool :=
  negb (falsy (effectiveFrom r) || isNaN (cow r) || isNaN (buffalo r)
        || (cow r <=? num_zero) || (buffalo r <=? num_zero)).

(** The sum of one figure of the buckets of a [dayMap], in the order of the
    map. *)
Definition sumDayField (f : DaySum -> num) (m : DayMap) : num :=
  fold_left (fun acc kv => acc + f (snd kv)) m num_zero.

(** The entries of one date. *)
Definition onDate (k : dateKey) (e : Entry) : bool := String.eqb (date e) k.

(** The three figures of a bucket, as the loop of [totals] carries them,
    and back. *)
Definition figures (b : DaySum) : num * num * num := (cowKg b, bufKg b, cost b).

Definition bucket (acc : num * num * num) : DaySum :=
  let '(c, b, k) := acc in mkDaySum c b k.

(** The result of [totals] as a bucket of a [dayMap]. *)
Definition totalsAsDaySum (t : Totals) : DaySum :=
  mkDaySum (totals_cowKg t) (totals_bufKg t) (totals_cost t).

End Sessions.

(** ** The entry list and the export *)

Section Listing.
Context {N : JSNumber}.
Local Open Scope num_scope.

(** The comparator of the two sorts by date:
    [(a, b) => a.date.localeCompare(b.date)]. *)
Definition compareEntries (a b : Entry) : comparison :=
  localeCompare (date a) (date b).

(** The unit price of [EntryList]:
    [(e.type === "buffalo" ? r?.buffalo : r?.cow) ?? 0]. *)
Definition entryListPrice (r : option Rate) (e : Entry) : num :=
  match (if String.eqb (type e) "buffalo"
         then option_map buffalo r else option_map cow r) with
  | Some price => price
  | None => num_zero
  end.

(** What a row of the table of [EntryList] shows of an entry: the entry,
    its unit price and its amount. *)
Record EntryRow : Type := mkEntryRow {
  row_entry : Entry;
  row_price : num;
  row_amount : num
}.

Definition entryListRow (rates : list Rate) (e : Entry) : EntryRow :=
  let r := rateForDate rates (date e) in
  let price := entryListPrice r e in
  let amount := price * kg e in
  mkEntryRow e price amount.

(** The rows of [EntryList]: the entries of the month, sorted by date. *)
Definition entryListRows (monthEntries : list Entry) (rates : list Rate)
  : list EntryRow :=
  map (entryListRow rates) (sort compareEntries monthEntries).

(** The text of [exportTxt] before its numbers are turned into text: what
    the program writes itself, the numbers that the template converts, and
    the numbers that go through [toFixed(2)]. *)
Inductive Piece : Type :=
| Text (s : string)
| Num (x : num)
| Fixed2 (x : num).

Definition TAB : string := String (ascii_of_nat 9) "".

(** The end of the header and of every row: a backslash and the letter n. *)
Definition rowEnd : string := String (ascii_of_nat 92) "n".

Definition exportHeader : string :=
  "Date" ++ TAB ++ "Type" ++ TAB ++ "Kg" ++ TAB ++ "Rate(₹/kg)" ++ TAB
  ++ "Amount(₹)" ++ rowEnd.

Definition exportRow (rates : list Rate) (e : Entry) : list Piece :=
  let r := rateForDate rates (date e) in
  let rate := dayPerKg r e in
  [Text (date e); Text TAB; Text (type e); Text TAB; Num (kg e); Text TAB;
   Num rate; Text TAB; Fixed2 (rate * kg e); Text rowEnd].

(** [content] as [exportTxt] hands it to the [Blob]. *)
Definition exportTxt (entries : list Entry) (rates : list Rate) : list Piece :=
  let ordered := sort compareEntries entries in
  Text exportHeader :: flat_map (exportRow rates) ordered.

(** The pieces of the export that go through [toFixed(2)]: one a row. *)
Definition fixedPieces (ps : list Piece) : list num :=
  flat_map (fun p => match p with Fixed2 x => [x] | _ => [] end) ps.

(** The line feed. *)
Definition LF : ascii := ascii_of_nat 10.

Definition noLineFeed (s : string) : Prop := ~ In LF (list_ascii_of_string s).

End Listing.

(** ** Date keys of dates, and the month shown *)

Section MonthView.
Local Open Scope Z_scope.

(** [String(n)] for an integer. *)
Definition stringOfZ (n : Z) : string := NilZero.string_of_int (Z.to_int n).

(** [s.padStart(targetLength, "0")]. *)
Definition padStartZero (s : string) (targetLength : nat) : string :=
  String.concat "" (repeat "0" (targetLength - String.length s)) ++ s.

Definition pad (n : Z) : string := padStartZero (stringOfZ n) 2.

Definition toKey (d : Date) : string :=
  stringOfZ (getFullYear d) ++ "-" ++ pad (getMonth d + 1) ++ "-" ++ pad (getDate d).

(** The buttons of [MonthNav]. *)
Definition prevMonth (month : Date) : Date :=
  newDate (getFullYear month) (getMonth month - 1) 1.

Definition nextMonth (month : Date) : Date :=
  newDate (getFullYear month) (getMonth month + 1) 1.

(** The test of [monthEntries] on a parsed date: [d >= start && d <= end]. *)
Definition dateInMonth (month d : Date) : bool :=
  let start := startOfMonth month in
  let end_ := endOfMonth month in
  (dayNumber start <=? dayNumber d) && (dayNumber d <=? dayNumber end_).

(** [inMonth] of a [DayCell]: [date.getMonth() === monthIndex]. *)
Definition inMonth (monthIndex : Z) (date : Date) : bool :=
  getMonth date =? monthIndex.

(** An integer below 100 in two digits, and one below 10000 in four. *)
Definition digitChar (k : Z) : ascii := ascii_of_N (Z.to_N (48 + k)).

Definition twoDigits (n : Z) : string :=
  String (digitChar (n / 10)) (String (digitChar (n mod 10)) "").

Definition fourDigits (n : Z) : string := twoDigits (n / 100) ++ twoDigits (n mod 100).

(** The date as one number: year, month and day in decimal digits. *)
Definition dateNumber (d : Date) : Z :=
  getFullYear d * 10000 + (getMonth d + 1) * 100 + getDate d.

End MonthView.

(** ** More sample data *)

(** The rates of February. *)
Definition rateDraftFebruary : @RateDraft binary64 :=
  @mkRateDraft binary64 "2024-02-01" 55%float 75%float.

(** A session: the first rates, a purchase, the rates of February, a
    purchase under them. *)
Definition sessionTwoMonths : list (@Action binary64) :=
  [SaveRates (@mkRateDraft binary64 "2024-01-01" 50%float 70%float);
   SaveEntry entryDraftNewYear;
   SaveRates rateDraftFebruary;
   SaveEntry (@mkEntryDraft binary64 "2024-02-01" "buffalo" 1.5%float)].

(** The timeline of January and February, and the same stored the other
    way round. *)
Definition ratesTwoMonths : list (@Rate binary64) :=
  [@mkRate binary64 "2024-01-01" 50%float 70%float;
   @mkRate binary64 "2024-02-01" 55%float 75%float].

Definition ratesTwoMonthsReversed : list (@Rate binary64) :=
  [@mkRate binary64 "2024-02-01" 55%float 75%float;
   @mkRate binary64 "2024-01-01" 50%float 70%float].

(** The sample ledger in exact arithmetic with its first two entries
    exchanged. *)
Definition ledgerTwoDaysExactSwapped : list (@Entry exact) :=
  [@mkEntry exact "2024-01-02" "cow" (Q2Qc (11 # 10));
   @mkEntry exact "2024-01-01" "cow" (Q2Qc (2 # 10));
   @mkEntry exact "2024-01-02" "cow" (Q2Qc (11 # 10))].

(** Some days of the winter of 2024. *)
Definition lastOfJanuary2024 : Date := mkDate 2024 0 31.
Definition firstOfFebruary2024 : Date := mkDate 2024 1 1.
Definition firstOfJanuary2024 : Date := mkDate 2024 0 1.
Definition leapDay2024 : Date := mkDate 2024 1 29.

(** ** Days without a rate *)

(** Arithmetic in which a finite weight at the unit price 0 adds nothing to
    a cost of 0. *)
Class ZeroPrice (N : JSNumber) : Prop := {
  zero_price_amount :
    forall w : num, isFinite w = true -> (num_zero + num_zero * w = num_zero)%num
}.

Section Uncovered.
Context {N : JSNumber}.
Local Open Scope num_scope.





End Uncovered.


(** * Properties *)

(** ** The order of date keys *)

Lemma ascii_compare_refl (a : ascii) : Ascii.compare a a = Eq.
Proof. unfold Ascii.compare. apply N.compare_refl. Qed.

Lemma ascii_compare_lt_trans (a b c : ascii) :
  Ascii.compare a b = Lt -> Ascii.compare b c = Lt -> Ascii.compare a c = Lt.
Proof.
  unfold Ascii.compare. rewrite !N.compare_lt_iff. apply N.lt_trans.
Qed.

Lemma string_compare_refl (s : string) : String.compare s s = Eq.
Proof.
  induction s as [|a s IH]; simpl; [reflexivity|].
  now rewrite ascii_compare_refl.
Qed.

Lemma string_compare_lt_trans (a b c : string) :
  String.compare a b = Lt -> String.compare b c = Lt -> String.compare a c = Lt.
Proof.
  revert b c.
  induction a as [|x a IH]; intros [|y b] [|z c]; simpl; try congruence.
  destruct (Ascii.compare x y) eqn:Hxy; try discriminate;
    destruct (Ascii.compare y z) eqn:Hyz; try discriminate; intros H1 H2.
  - apply Ascii.compare_eq_iff in Hxy, Hyz. subst.
    rewrite ascii_compare_refl. eauto.
  - apply Ascii.compare_eq_iff in Hxy. subst. now rewrite Hyz.
  - apply Ascii.compare_eq_iff in Hyz. subst. now rewrite Hxy.
  - now rewrite (ascii_compare_lt_trans x y z).
Qed.

Lemma key_leb_refl (a : dateKey) : key_leb a a = true.
Proof. unfold key_leb, String.leb. now rewrite string_compare_refl. Qed.

Lemma key_leb_cases (a b : dateKey) :
  key_leb a b = true <-> a = b \/ key_ltb a b = true.
Proof.
  unfold key_leb, key_ltb, String.leb, String.ltb.
  destruct (String.compare a b) eqn:H.
  - apply String.compare_eq_iff in H. intuition.
  - intuition.
  - split; [discriminate|]. intros [->|]; [|discriminate].
    now rewrite string_compare_refl in H.
Qed.

Lemma key_ltb_trans (a b c : dateKey) :
  key_ltb a b = true -> key_ltb b c = true -> key_ltb a c = true.
Proof.
  unfold key_ltb, String.ltb.
  destruct (String.compare a b) eqn:H1; try discriminate.
  destruct (String.compare b c) eqn:H2; try discriminate.
  now rewrite (string_compare_lt_trans a b c).
Qed.

Lemma key_leb_trans (a b c : dateKey) :
  key_leb a b = true -> key_leb b c = true -> key_leb a c = true.
Proof.
  rewrite !key_leb_cases.
  intros [->|H1] [->|H2]; auto.
  right. eapply key_ltb_trans; eauto.
Qed.

Lemma key_leb_false (a b : dateKey) :
  key_leb a b = false <-> key_ltb b a = true.
Proof.
  unfold key_leb, key_ltb, String.leb, String.ltb.
  rewrite (String.compare_antisym b a).
  destruct (String.compare a b); simpl; intuition discriminate.
Qed.

Lemma key_ltb_leb (a b : dateKey) : key_ltb a b = true -> key_leb a b = true.
Proof. intros H. apply key_leb_cases. now right. Qed.

Lemma key_ltb_irrefl (a : dateKey) : key_ltb a a = false.
Proof. unfold key_ltb, String.ltb. now rewrite string_compare_refl. Qed.

Lemma key_leb_ltb_trans (a b c : dateKey) :
  key_leb a b = true -> key_ltb b c = true -> key_ltb a c = true.
Proof.
  rewrite key_leb_cases. intros [->|H1] H2; auto.
  eapply key_ltb_trans; eauto.
Qed.

Lemma localeCompare_Gt (a b : dateKey) :
  localeCompare a b = Gt <-> key_leb a b = false.
Proof.
  unfold localeCompare, key_leb, String.leb.
  destruct (String.compare a b); intuition discriminate.
Qed.

(** ** The sorted copy of the timeline *)

Section Timeline.
Context {N : JSNumber}.

Lemma sort_insert_perm (x : Rate) (l : list Rate) :
  Permutation (sort_insert compareRates x l) (x :: l).
Proof.
  induction l as [|y t IH]; simpl; [reflexivity|].
  destruct (compareRates x y); try reflexivity.
  rewrite IH. apply perm_swap.
Qed.

Lemma sortedRates_perm (rates : list Rate) :
  Permutation (sortedRates rates) rates.
Proof.
  unfold sortedRates, sort.
  induction rates as [|x t IH]; simpl; [reflexivity|].
  rewrite sort_insert_perm. now constructor.
Qed.

Lemma sortedRates_In (rates : list Rate) (r : Rate) :
  In r (sortedRates rates) <-> In r rates.
Proof.
  split; apply Permutation_in;
    [apply sortedRates_perm | symmetry; apply sortedRates_perm].
Qed.

Lemma rate_le_trans (a b c : Rate) : rate_le a b -> rate_le b c -> rate_le a c.
Proof. unfold rate_le. apply key_leb_trans. Qed.

Lemma sort_insert_sorted (x : Rate) (l : list Rate) :
  StronglySorted rate_le l -> StronglySorted rate_le (sort_insert compareRates x l).
Proof.
  induction 1 as [|y t Hs IH Hy]; simpl.
  - repeat constructor.
  - destruct (compareRates x y) eqn:Hc.
    + assert (Hxy : rate_le x y).
      { unfold rate_le. destruct (key_leb (effectiveFrom x) (effectiveFrom y)) eqn:E; auto.
        apply localeCompare_Gt in E. unfold compareRates in Hc. congruence. }
      constructor; [now constructor|]. constructor; auto.
      eapply Forall_impl; [|exact Hy]. intros z Hz. eapply rate_le_trans; eauto.
    + assert (Hxy : rate_le x y).
      { unfold rate_le. destruct (key_leb (effectiveFrom x) (effectiveFrom y)) eqn:E; auto.
        apply localeCompare_Gt in E. unfold compareRates in Hc. congruence. }
      constructor; [now constructor|]. constructor; auto.
      eapply Forall_impl; [|exact Hy]. intros z Hz. eapply rate_le_trans; eauto.
    + assert (Hyx : rate_le y x).
      { apply localeCompare_Gt in Hc. apply key_leb_false in Hc.
        now apply key_ltb_leb. }
      constructor; auto.
      rewrite Forall_forall in *. intros z Hz.
      apply (Permutation_in _ (sort_insert_perm x t)) in Hz.
      destruct Hz as [<-|Hz]; auto.
Qed.

Lemma sortedRates_sorted (rates : list Rate) :
  StronglySorted rate_le (sortedRates rates).
Proof.
  unfold sortedRates, sort.
  induction rates as [|x t IH]; simpl; [constructor|].
  now apply sort_insert_sorted.
Qed.

(** Sorting a timeline that is already in order gives it back. *)
Lemma sortedRates_id (rates : list Rate) :
  StronglySorted rate_le rates -> sortedRates rates = rates.
Proof.
  unfold sortedRates, sort.
  induction 1 as [|x t Hs IH Hx]; simpl; [reflexivity|].
  rewrite IH. destruct t as [|y t']; simpl; [reflexivity|].
  inversion Hx as [|? ? Hxy _]; subst.
  unfold compareRates.
  destruct (localeCompare (effectiveFrom x) (effectiveFrom y)) eqn:Hc; try reflexivity.
  apply localeCompare_Gt in Hc. unfold rate_le in Hxy. congruence.
Qed.

(** What the scan of [rateForDate] returns on a sorted list. *)
Lemma rateScan_spec (dateKey : dateKey) (sorted : list Rate) :
  StronglySorted rate_le sorted ->
  forall found,
    (rateScan found sorted dateKey = found /\
     forall r, In r sorted -> key_leb (effectiveFrom r) dateKey = false)
    \/
    (exists r, rateScan found sorted dateKey = Some r /\ In r sorted /\
       key_leb (effectiveFrom r) dateKey = true /\
       forall r', In r' sorted -> key_leb (effectiveFrom r') dateKey = true ->
                  key_leb (effectiveFrom r') (effectiveFrom r) = true).
Proof.
  induction 1 as [|x t Hs IH Hx]; intros found; simpl.
  - left. split; [reflexivity | intros r []].
  - rewrite Forall_forall in Hx.
    destruct (key_leb (effectiveFrom x) dateKey) eqn:Hd.
    + right. destruct (IH (Some x)) as [[Heq Hnone]|[r [Heq [Hin [Hle Hmax]]]]].
      * exists x. repeat split; auto.
        intros r' [<-|Hr'] Hr'd; [apply key_leb_refl|].
        rewrite (Hnone _ Hr') in Hr'd. discriminate.
      * exists r. repeat split; auto.
        intros r' [<-|Hr'] Hr'd; auto. now apply Hx.
    + left. split; [reflexivity|].
      intros r [<-|Hr]; auto.
      destruct (key_leb (effectiveFrom r) dateKey) eqn:Hrd; auto.
      rewrite (key_leb_trans _ _ _ (Hx _ Hr) Hrd) in Hd. discriminate.
Qed.

(** What [rateForDate] returns, by cases. *)
Lemma rateForDate_cases (rates : list Rate) (dateKey : dateKey) :
  (rateForDate rates dateKey = None /\
   forall r, In r rates -> key_leb (effectiveFrom r) dateKey = false)
  \/
  (exists r, rateForDate rates dateKey = Some r /\ In r rates /\
     key_leb (effectiveFrom r) dateKey = true /\
     forall r', In r' rates -> key_leb (effectiveFrom r') dateKey = true ->
                key_leb (effectiveFrom r') (effectiveFrom r) = true).
Proof.
  unfold rateForDate.
  destruct (rateScan_spec dateKey (sortedRates rates) (sortedRates_sorted rates) None)
    as [[Heq Hnone]|[r [Heq [Hin [Hle Hmax]]]]].
  - left. split; [exact Heq|].
    intros r Hr. apply Hnone. now apply sortedRates_In.
  - right. exists r. repeat split; auto.
    + now apply (proj1 (sortedRates_In rates r)).
    + intros r' Hr'. apply Hmax. now apply sortedRates_In.
Qed.

(** C2. For every date key and every timeline, [rateForDate] returns a
    record of the timeline that starts on or before the date and on or
    after every other such record (the greatest [effectiveFrom] that is
    [<=] the date), and it returns nothing exactly when no record starts on
    or before the date: the date is before every record, or the timeline is
    empty. *)
Theorem rateForDate_greatest_start (rates : list Rate) (dateKey : dateKey) :
  (forall r, rateForDate rates dateKey = Some r ->
     In r rates /\
     key_leb (effectiveFrom r) dateKey = true /\
     forall r', In r' rates -> key_leb (effectiveFrom r') dateKey = true ->
                key_leb (effectiveFrom r') (effectiveFrom r) = true)
  /\
  (rateForDate rates dateKey = None <->
     forall r', In r' rates -> key_leb (effectiveFrom r') dateKey = false).
Proof.
  destruct (rateForDate_cases rates dateKey)
    as [[Heq Hnone]|[r [Heq [Hin [Hle Hmax]]]]]; rewrite Heq.
  - split; [discriminate|]. split; auto.
  - split.
    + intros r0 [= <-]. repeat split; auto.
    + split; [discriminate|]. intros Hall.
      rewrite (Hall _ Hin) in Hle. discriminate.
Qed.

End Timeline.

(** ** Appending to the timeline *)

Section Inserts.
Context {N : JSNumber}.
Local Open Scope num_scope.

Lemma lastInserted_cons (x y : Rate) (t : list Rate) :
  lastInserted (x :: y :: t) = lastInserted (y :: t).
Proof. unfold lastInserted. simpl. now rewrite Nat.sub_0_r. Qed.

Lemma lastInserted_snoc (l : list Rate) (x : Rate) :
  lastInserted (l ++ [x]) = Some x.
Proof.
  induction l as [|y t IH]; [reflexivity|].
  destruct t as [|z t']; [reflexivity|].
  simpl app in *. now rewrite lastInserted_cons.
Qed.

Lemma lastInserted_In (l : list Rate) (x : Rate) :
  lastInserted l = Some x -> In x l.
Proof. unfold lastInserted. apply nth_error_In. Qed.

Lemma lastInserted_None (l : list Rate) : lastInserted l = None -> l = [].
Proof.
  destruct l as [|x t] using rev_ind; [reflexivity|].
  now rewrite lastInserted_snoc.
Qed.

Lemma increasing_sorted (l : list Rate) :
  increasing (map effectiveFrom l) -> StronglySorted rate_le l.
Proof.
  unfold increasing.
  induction l as [|x t IH]; simpl; intros H; [constructor|].
  inversion H as [|? ? Hs Hx]; subst. constructor; auto.
  rewrite Forall_map in Hx. eapply Forall_impl; [|exact Hx].
  intros r Hr. now apply key_ltb_leb.
Qed.

Lemma sorted_last_greatest (l : list Rate) (x : Rate) :
  StronglySorted rate_le l -> lastInserted l = Some x ->
  forall r, In r l -> rate_le r x.
Proof.
  induction 1 as [|y t Hs IH Hy]; [intros _ r []|].
  destruct t as [|z t'].
  - intros [= <-] r [<-|[]]. apply key_leb_refl.
  - rewrite lastInserted_cons. intros Hl r [<-|Hr]; auto.
    rewrite Forall_forall in Hy. apply Hy. now apply lastInserted_In.
Qed.

Lemma latestRate_increasing (l : list Rate) :
  increasing (map effectiveFrom l) -> latestRate l = lastInserted l.
Proof.
  intros H. unfold latestRate, lastInserted.
  now rewrite (sortedRates_id l (increasing_sorted l H)).
Qed.

Lemma increasing_snoc (l : list Rate) (x : Rate) :
  increasing (map effectiveFrom l) ->
  (forall y, lastInserted l = Some y ->
             key_ltb (effectiveFrom y) (effectiveFrom x) = true) ->
  increasing (map effectiveFrom (l ++ [x])).
Proof.
  unfold increasing. intros Hs Hlast.
  assert (Hall : Forall (fun r => key_ltb (effectiveFrom r) (effectiveFrom x) = true) l).
  { destruct (lastInserted l) as [y|] eqn:Hy.
    - rewrite Forall_forall. intros r Hr.
      pose proof (sorted_last_greatest l y (increasing_sorted l Hs) Hy r Hr) as Hle.
      eapply key_leb_ltb_trans; [exact Hle | now apply Hlast].
    - apply lastInserted_None in Hy. subst. constructor. }
  clear Hlast. induction l as [|z t IH]; simpl in *.
  - repeat constructor.
  - inversion Hs as [|? ? Hs' Hz]; subst.
    inversion Hall as [|? ? Hzx Hall']; subst.
    constructor; auto.
    rewrite map_app. simpl. apply Forall_app. split; auto.
Qed.

(** One call of [addRate] on a timeline in increasing order. *)
Lemma addRate_step (d : RateDraft) (s : AppState) :
  increasing (map effectiveFrom (rates s)) ->
  let clean := mkRate (draft_effectiveFrom d) (draft_cow d) (draft_buffalo d) in
  (snd (addRate d s) = RateSaved /\
   rateDraftAccepted d = true /\
   rates (fst (addRate d s)) = rates s ++ [clean] /\
   entries (fst (addRate d s)) = entries s /\
   (forall y, lastInserted (rates s) = Some y ->
              key_ltb (effectiveFrom y) (effectiveFrom clean) = true))
  \/
  (snd (addRate d s) = RateInvalid /\ rateDraftAccepted d = false /\
   fst (addRate d s) = s)
  \/
  (snd (addRate d s) = RateNotAfterLatest /\ rateDraftAccepted d = true /\
   fst (addRate d s) = s /\
   exists y, lastInserted (rates s) = Some y /\
             key_leb (effectiveFrom clean) (effectiveFrom y) = true).
Proof.
  intros Hinc clean. unfold addRate, rateDraftAccepted. cbn [effectiveFrom cow buffalo].
  destruct (falsy (draft_effectiveFrom d) || isNaN (draft_cow d) || isNaN (draft_buffalo d)
            || (draft_cow d <=? num_zero) || (draft_buffalo d <=? num_zero)) eqn:Hchk;
    cbn [negb].
  - right. left. auto.
  - rewrite (latestRate_increasing _ Hinc).
    destruct (lastInserted (rates s)) as [y|] eqn:Hy.
    + destruct (key_leb (draft_effectiveFrom d) (effectiveFrom y)) eqn:Hle.
      * right. right. cbn. repeat split; auto. now exists y.
      * left. cbn. repeat split; auto.
        intros y' [= <-]. now apply key_leb_false.
    + left. cbn. repeat split; auto. discriminate.
Qed.

Lemma addRate_keeps_increasing (d : RateDraft) (s : AppState) :
  increasing (map effectiveFrom (rates s)) ->
  increasing (map effectiveFrom (rates (fst (addRate d s)))).
Proof.
  intros Hinc.
  destruct (addRate_step d s Hinc) as [[_ [_ [Hr [_ Hlt]]]]|[[_ [_ Hs]]|[_ [_ [Hs _]]]]].
  - rewrite Hr. now apply increasing_snoc.
  - now rewrite Hs.
  - now rewrite Hs.
Qed.

Lemma addRate_keeps_records (d : RateDraft) (s : AppState) (r : Rate) :
  increasing (map effectiveFrom (rates s)) ->
  In r (rates s) -> In r (rates (fst (addRate d s))).
Proof.
  intros Hinc Hr.
  destruct (addRate_step d s Hinc) as [[_ [_ [Hr' _]]]|[[_ [_ Hs]]|[_ [_ [Hs _]]]]].
  - rewrite Hr'. apply in_or_app. now left.
  - now rewrite Hs.
  - now rewrite Hs.
Qed.

Lemma addRates_keeps_increasing (drafts : list RateDraft) (s : AppState) :
  increasing (map effectiveFrom (rates s)) ->
  increasing (map effectiveFrom (rates (addRates drafts s))).
Proof.
  revert s. induction drafts as [|d ds IH]; intros s Hinc; simpl; auto.
  apply IH. now apply addRate_keeps_increasing.
Qed.

Lemma addRates_keeps_records (drafts : list RateDraft) (s : AppState) (r : Rate) :
  increasing (map effectiveFrom (rates s)) ->
  In r (rates s) -> In r (rates (addRates drafts s)).
Proof.
  revert s. induction drafts as [|d ds IH]; intros s Hinc Hr; simpl; auto.
  apply IH; [now apply addRate_keeps_increasing | now apply addRate_keeps_records].
Qed.

(** On a timeline in increasing order the latest record is the greatest. *)
Lemma latestRate_greatest (l : list Rate) (r : Rate) :
  increasing (map effectiveFrom l) -> In r l ->
  exists latest, latestRate l = Some latest /\ In latest l /\ rate_le r latest.
Proof.
  intros Hinc Hr. rewrite (latestRate_increasing l Hinc).
  destruct (lastInserted l) as [y|] eqn:Hy.
  - exists y. repeat split; [now apply lastInserted_In|].
    eapply sorted_last_greatest; eauto. now apply increasing_sorted.
  - apply lastInserted_None in Hy. subst. destruct Hr.
Qed.

(** Every accepted draft of a run starts on or before a record that the
    timeline holds at the end of the run. *)
Lemma addRates_covers_drafts (drafts : list RateDraft) (s : AppState) (d : RateDraft) :
  increasing (map effectiveFrom (rates s)) ->
  In d drafts -> rateDraftAccepted d = true ->
  exists r, In r (rates (addRates drafts s)) /\
            key_leb (draft_effectiveFrom d) (effectiveFrom r) = true.
Proof.
  revert s. induction drafts as [|d0 ds IH]; intros s Hinc [] Hacc.
  - subst d0. simpl.
    pose proof (addRate_keeps_increasing d s Hinc) as Hinc'.
    destruct (addRate_step d s Hinc) as [[_ [_ [Hr _]]]|[[_ [Hno _]]|[_ [_ [Hs [y [Hy Hle]]]]]]].
    + exists (mkRate (draft_effectiveFrom d) (draft_cow d) (draft_buffalo d)). split.
      * apply addRates_keeps_records; auto. rewrite Hr. apply in_or_app. right. now left.
      * apply key_leb_refl.
    + congruence.
    + exists y. split; auto.
      apply addRates_keeps_records; auto. rewrite Hs. now apply lastInserted_In.
  - simpl. apply IH; auto. now apply addRate_keeps_increasing.
Qed.

(** C3. From a timeline in increasing order (the empty one at the start),
    after every sequence of calls of [addRate]: the stored [effectiveFrom]
    values are strictly increasing in insertion order; [latestRate] is the
    last record inserted and starts on or after every stored record and
    every accepted draft of the sequence, so it holds the maximum
    [effectiveFrom] ever inserted; a draft that starts on or before the
    latest record is rejected and changes nothing; and with an empty
    timeline no such check applies. *)
Theorem addRates_latest_is_maximum (s0 : AppState) (drafts : list RateDraft) :
  increasing (map effectiveFrom (rates s0)) ->
  let s := addRates drafts s0 in
  increasing (map effectiveFrom (rates s)) /\
  latestRate (rates s) = lastInserted (rates s) /\
  (forall r, In r (rates s) ->
     exists latest, latestRate (rates s) = Some latest /\ In latest (rates s) /\
                    key_leb (effectiveFrom r) (effectiveFrom latest) = true) /\
  (forall d, In d drafts -> rateDraftAccepted d = true ->
     exists latest, latestRate (rates s) = Some latest /\
                    key_leb (draft_effectiveFrom d) (effectiveFrom latest) = true) /\
  (forall d latest, latestRate (rates s) = Some latest ->
     key_leb (draft_effectiveFrom d) (effectiveFrom latest) = true ->
     snd (addRate d s) <> RateSaved /\ fst (addRate d s) = s) /\
  (forall d, latestRate (rates s) = None -> rateDraftAccepted d = true ->
     snd (addRate d s) = RateSaved).
Proof.
  intros Hinc0 s.
  assert (Hinc : increasing (map effectiveFrom (rates s)))
    by now apply addRates_keeps_increasing.
  split; [exact Hinc|]. split; [now apply latestRate_increasing|].
  split; [intros r Hr; now apply latestRate_greatest|].
  split; [|split].
  - intros d Hd Hacc.
    destruct (addRates_covers_drafts drafts s0 d Hinc0 Hd Hacc) as [r [Hr Hle]].
    destruct (latestRate_greatest _ r Hinc Hr) as [latest [Hl [_ Hrl]]].
    exists latest. split; auto. eapply key_leb_trans; eauto.
  - intros d latest Hl Hle.
    rewrite (latestRate_increasing _ Hinc) in Hl.
    destruct (addRate_step d s Hinc) as [[_ [_ [_ [_ Hlt]]]]|[[Ho [_ Hs]]|[Ho [_ [Hs _]]]]].
    + specialize (Hlt _ Hl). cbn in Hlt. apply key_leb_false in Hlt. congruence.
    + rewrite Ho. split; [discriminate | exact Hs].
    + rewrite Ho. split; [discriminate | exact Hs].
  - intros d Hl Hacc.
    rewrite (latestRate_increasing _ Hinc) in Hl.
    destruct (addRate_step d s Hinc) as [[Ho _]|[[_ [Hno _]]|[_ [_ [_ [y [Hy _]]]]]]];
      congruence.
Qed.

End Inserts.

(** ** Adding entries *)

Section Entries.
Context {N : JSNumber}.
Local Open Scope num_scope.

(** In a timeline in increasing order no two records start on one day. *)
Lemma increasing_unique (l : list Rate) (a b : Rate) :
  increasing (map effectiveFrom l) -> In a l -> In b l ->
  effectiveFrom a = effectiveFrom b -> a = b.
Proof.
  unfold increasing. induction l as [|x t IH]; simpl; [intros _ []|].
  intros H Ha Hb Heq. inversion H as [|? ? Hs Hx]; subst.
  rewrite Forall_map, Forall_forall in Hx.
  destruct Ha as [<-|Ha], Hb as [<-|Hb]; auto.
  - specialize (Hx _ Hb). rewrite Heq, key_ltb_irrefl in Hx. discriminate.
  - specialize (Hx _ Ha). rewrite Heq, key_ltb_irrefl in Hx. discriminate.
Qed.

(** On the day a record starts, that record is the rate in effect. *)
Lemma rateForDate_on_start (l : list Rate) (r : Rate) :
  increasing (map effectiveFrom l) -> In r l ->
  rateForDate l (effectiveFrom r) = Some r.
Proof.
  intros Hinc Hr.
  destruct (rateForDate_cases l (effectiveFrom r))
    as [[_ Hnone]|[r' [Heq [Hin [Hle Hmax]]]]].
  - pose proof (Hnone r Hr) as Hfalse.
    rewrite key_leb_refl in Hfalse. discriminate.
  - rewrite Heq. f_equal. apply (increasing_unique l); auto.
    apply String.leb_antisym; [exact Hle|].
    apply Hmax; auto. apply key_leb_refl.
Qed.

(** C4. For a draft that passes the checks on its own fields, [addEntry]
    ends with the rate-missing alert if and only if [rateForDate] finds no
    rate for its date.  In particular, on a timeline in increasing order, a
    draft dated exactly at the start of a record is saved, that record is
    the rate in effect on its date, and the unit price of the daily
    summaries and the cost added by the totals are those of that record. *)
Theorem addEntry_rate_missing_iff (draft : EntryDraft) (s : AppState) :
  entryDraftAccepted draft = true ->
  let clean := mkEntry (draft_date draft) (draft_type draft) (draft_kg draft) in
  (snd (addEntry draft s) = EntryRateMissing <->
   rateForDate (rates s) (draft_date draft) = None)
  /\
  (forall r, increasing (map effectiveFrom (rates s)) -> In r (rates s) ->
     draft_date draft = effectiveFrom r ->
     addEntry draft s =
       (setShowEntryDialog false (setEntries (fun cur => cur ++ [clean]) s),
        EntrySaved) /\
     rateForDate (rates s) (date clean) = Some r /\
     dayPerKg (rateForDate (rates s) (date clean)) clean =
       (if isCow clean then cow r else buffalo r) /\
     forall cowKg bufKg cost,
       totalsStep (rates s) (cowKg, bufKg, cost) clean =
         (if isCow clean then cowKg + kg clean else cowKg,
          if isCow clean then bufKg else bufKg + kg clean,
          cost + lineCost r clean)).
Proof.
  intros Hacc clean. unfold entryDraftAccepted in Hacc.
  apply negb_true_iff in Hacc.
  split.
  - unfold addEntry. cbn [date kg]. rewrite Hacc.
    destruct (rateForDate (rates s) (draft_date draft)); cbn;
      split; congruence.
  - intros r Hinc Hr Hdate.
    assert (Hrate : rateForDate (rates s) (date clean) = Some r).
    { cbn [clean date]. rewrite Hdate. now apply rateForDate_on_start. }
    split; [|split; [exact Hrate|split]].
    + unfold addEntry. cbn [date kg]. rewrite Hacc.
      cbn [clean date] in Hrate. now rewrite Hrate.
    + rewrite Hrate. unfold dayPerKg. now destruct (isCow clean).
    + intros c b k. unfold totalsStep, lineCost. now rewrite Hrate.
Qed.

(** C9. A call of [addEntry] or [addRate] that does not save leaves the
    whole state as it was: ledger, timeline and dialogs. *)
Theorem failed_insert_changes_nothing (s : AppState) :
  (forall draft, snd (addEntry draft s) <> EntrySaved ->
                 fst (addEntry draft s) = s) /\
  (forall draft, snd (addRate draft s) <> RateSaved ->
                 fst (addRate draft s) = s).
Proof.
  split; intros draft.
  - unfold addEntry.
    destruct (falsy _ || isNaN _ || (_ <=? _)); [reflexivity|].
    destruct (rateForDate _ _); cbn; congruence.
  - unfold addRate.
    destruct (falsy _ || isNaN _ || isNaN _ || (_ <=? _) || (_ <=? _));
      [reflexivity|].
    destruct (latestRate _) as [latest|]; [|cbn; congruence].
    destruct (key_leb _ _); cbn; congruence.
Qed.

(** C6, as the program has it.  [addRate] ends with the alert for invalid
    numbers whenever a rate is NaN or not above zero (or [effectiveFrom] is
    empty), and [addEntry] returns without saving whenever the weight is
    NaN or not above zero or the date is empty; in both cases the state is
    unchanged.  Finiteness is not among the checks. *)
Theorem insert_rejects_invalid_numbers (s : AppState) :
  (forall d : RateDraft,
     falsy (draft_effectiveFrom d) = true \/
     isNaN (draft_cow d) = true \/ isNaN (draft_buffalo d) = true \/
     (draft_cow d <=? num_zero) = true \/ (draft_buffalo d <=? num_zero) = true ->
     addRate d s = (s, RateInvalid))
  /\
  (forall d : EntryDraft,
     falsy (draft_date d) = true \/
     isNaN (draft_kg d) = true \/ (draft_kg d <=? num_zero) = true ->
     addEntry d s = (s, EntryInvalid)).
Proof.
  split; intros d H.
  - unfold addRate. cbn [effectiveFrom cow buffalo].
    replace (falsy _ || isNaN _ || isNaN _ || (_ <=? _) || (_ <=? _)) with true;
      [reflexivity|].
    symmetry. rewrite !orb_true_iff. tauto.
  - unfold addEntry. cbn [date kg].
    replace (falsy _ || isNaN _ || (_ <=? _)) with true; [reflexivity|].
    symmetry. rewrite !orb_true_iff. tauto.
Qed.

End Entries.

(** The counterpart of C6 at [Infinity]: neither a weight nor a rate that
    is positive infinity is a positive finite number, and both inserts
    save it. *)
Lemma insert_accepts_infinity :
  positiveFinite (draft_kg entryDraftInfinity) = false /\
  snd (addEntry entryDraftInfinity stateJanuary) = EntrySaved /\
  positiveFinite (draft_cow rateDraftInfinity) = false /\
  snd (addRate rateDraftInfinity stateJanuary) = RateSaved.
Proof. repeat split; vm_compute; reflexivity. Qed.

(** ** Aggregation *)

Section Aggregation.
Context {N : JSNumber}.
Local Open Scope num_scope.

Lemma totalsStep_uncovered (rates : list Rate) (acc : num * num * num) (e : Entry) :
  rateForDate rates (date e) = None -> totalsStep rates acc e = acc.
Proof.
  intros H. unfold totalsStep. destruct acc as [[c b] k]. now rewrite H.
Qed.

Lemma totals_fold_covered (rates : list Rate) (entries : list Entry)
      (acc : num * num * num) :
  fold_left (totalsStep rates) entries acc =
  fold_left (totalsStep rates) (filter (covered rates) entries) acc.
Proof.
  revert acc. induction entries as [|e es IH]; intros acc; simpl; [reflexivity|].
  unfold covered at 1.
  destruct (rateForDate rates (date e)) eqn:Hr; simpl.
  - apply IH.
  - rewrite totalsStep_uncovered by assumption. apply IH.
Qed.

(** C1, as the program has it.  In [totals] an entry whose date has no
    rate in effect is skipped as a whole: its turn of the loop changes none
    of the running cow, buffalo and cost figures, so the totals of a ledger
    are the totals of its covered entries and the uncovered weights are in
    none of the kg tallies. *)
Theorem totals_skips_uncovered_entries (rates : list Rate) (entries : list Entry) :
  (forall acc e, In e entries -> rateForDate rates (date e) = None ->
                 totalsStep rates acc e = acc) /\
  totals entries rates = totals (filter (covered rates) entries) rates.
Proof.
  split.
  - intros acc e _. apply totalsStep_uncovered.
  - unfold totals. now rewrite totals_fold_covered.
Qed.

Lemma map_get_set (m : DayMap) (k : dateKey) (v : DaySum) :
  map_get (map_set m k v) k = Some v.
Proof.
  induction m as [|[k' v'] t IH]; simpl.
  - now rewrite String.eqb_refl.
  - destruct (String.eqb k' k) eqn:E; simpl; now rewrite E.
Qed.

Lemma num_add_zero_r `{!ExactArith N} (x : num) : x + num_zero = x.
Proof. rewrite num_add_comm. apply num_add_zero_l. Qed.

(** One turn of the two loops on an entry whose date has no rate in
    effect: the unit price is 0; the entry's weight is added to the cow or
    the buffalo figure of its date's bucket and the bucket's cost grows by
    0 times the weight, that is by nothing in exact arithmetic; the loop of
    [totals] leaves its running figures as they were. *)
Lemma dayMapStep_counts_uncovered_weight
        (rates : list Rate) (m : DayMap) (acc : num * num * num) (e : Entry) :
  rateForDate rates (date e) = None ->
  let old := bucketOf m (date e) in
  dayPerKg (rateForDate rates (date e)) e = num_zero /\
  map_get (dayMapStep rates m e) (date e) =
    Some (mkDaySum (if isCow e then cowKg old + kg e else cowKg old)
                   (if isCow e then bufKg old else bufKg old + kg e)
                   (cost old + num_zero * kg e)) /\
  (ExactArith N -> cost old + num_zero * kg e = cost old) /\
  totalsStep rates acc e = acc.
Proof.
  intros Hr old. split; [|split; [|split]].
  - rewrite Hr. unfold dayPerKg. now destruct (isCow e).
  - unfold dayMapStep. rewrite map_get_set, Hr. fold (bucketOf m (date e)).
    fold old. unfold dayPerKg. now destruct (isCow e).
  - intros E. now rewrite num_mul_zero_l, num_add_zero_r.
  - now apply totalsStep_uncovered.
Qed.

End Aggregation.

(** The counterpart of C1 on the sample data: the entry of 31 December has
    no rate, and [totals] counts none of its kilogram. *)
Lemma totals_drops_uncovered_weight :
  rateForDate ratesJanuary (date entryDecember) = None /\
  totals_cowKg (totals [entryDecember] ratesJanuary) = num_zero /\
  totals_kg (totals [entryDecember] ratesJanuary) = num_zero /\
  totals_cowKg (totals [entryDecember] ratesJanuary)
    <> (num_zero + kg entryDecember)%num.
Proof.
  repeat split; try (vm_compute; reflexivity).
  intros H. apply (f_equal (fun x : float => PrimFloat.eqb x 1%float)) in H.
  vm_compute in H. discriminate.
Qed.

(** ** Total cost and daily costs *)

Section CostIdentity.
Context {N : JSNumber} {E : ExactArith N}.
Local Open Scope num_scope.

(** The loop of [sumDayCost] from a running sum [a]. *)
Lemma sumDayCost_from (m : DayMap) (a d : num) :
  fold_left (fun acc kv => acc + cost (snd kv)) m (a + d) =
  fold_left (fun acc kv => acc + cost (snd kv)) m a + d.
Proof.
  revert a. induction m as [|[k v] t IH]; intros a; simpl; [reflexivity|].
  rewrite <- IH. f_equal.
  rewrite <- !num_add_assoc. f_equal. apply num_add_comm.
Qed.

(** Folding an amount into the bucket of a date adds it to the sum of the
    daily costs. *)
Lemma sumDayCost_set (m : DayMap) (k : dateKey) (x y d a : num) :
  fold_left (fun acc kv => acc + cost (snd kv))
            (map_set m k (mkDaySum x y (cost (bucketOf m k) + d))) a =
  fold_left (fun acc kv => acc + cost (snd kv)) m a + d.
Proof.
  revert a. unfold bucketOf.
  induction m as [|[k' v'] t IH]; intros a; simpl.
  - now rewrite num_add_zero_l.
  - destruct (String.eqb k' k) eqn:Ek; simpl.
    + rewrite num_add_assoc. apply sumDayCost_from.
    + apply IH.
Qed.

Lemma dayMapStep_cost (rates : list Rate) (m : DayMap) (e : Entry) :
  sumDayCost (dayMapStep rates m e) =
  sumDayCost m + dayPerKg (rateForDate rates (date e)) e * kg e.
Proof.
  unfold sumDayCost, dayMapStep. fold (bucketOf m (date e)).
  destruct (isCow e); cbn [cowKg bufKg cost]; apply sumDayCost_set.
Qed.

Lemma totalsStep_cost (rates : list Rate) (acc : num * num * num) (e : Entry) :
  snd (totalsStep rates acc e) =
  snd acc + dayPerKg (rateForDate rates (date e)) e * kg e.
Proof.
  unfold totalsStep, dayPerKg. destruct acc as [[c b] k].
  destruct (rateForDate rates (date e)) as [r|]; cbn [snd].
  - now destruct (isCow e).
  - destruct (isCow e); now rewrite num_mul_zero_l, num_add_zero_r.
Qed.

Lemma cost_folds_agree (rates : list Rate) (entries : list Entry)
      (acc : num * num * num) (m : DayMap) :
  snd acc = sumDayCost m ->
  snd (fold_left (totalsStep rates) entries acc) =
  sumDayCost (fold_left (dayMapStep rates) entries m).
Proof.
  revert acc m. induction entries as [|e es IH]; intros acc m H; simpl; auto.
  apply IH. rewrite totalsStep_cost, dayMapStep_cost. now rewrite H.
Qed.

(** C5, in exact arithmetic.  Where addition is associative and commutative
    with 0 neutral and 0 times a weight is 0, the total cost of [totals]
    equals the sum, over the days of the ledger, of the daily costs of
    [dayMap] applied to all entries. *)
Theorem totals_cost_is_sum_of_daily_costs (entries : list Entry) (rates : list Rate) :
  totals_cost (totals entries rates) = sumDayCost (dayMap entries rates).
Proof.
  unfold totals, dayMap.
  pose proof (cost_folds_agree rates entries (num_zero, num_zero, num_zero) []
                               eq_refl) as H.
  destruct (fold_left (totalsStep rates) entries (num_zero, num_zero, num_zero))
    as [[c b] k].
  exact H.
Qed.

End CostIdentity.

(** Rational arithmetic is exact. *)
#[export] Instance exact_laws : ExactArith exact.
Proof.
  constructor; cbn; intros.
  - apply Qcplus_assoc.
  - apply Qcplus_comm.
  - apply Qcplus_0_l.
  - apply Qcmult_0_l.
Qed.

(** The counterpart of C5 in the arithmetic of the program: 0.2 kg on one
    day and twice 1.1 kg on the next, at 50 a kilogram.  The amounts are
    10 and twice 55.00000000000001; [totals] adds them from the left and
    gets 120, the daily costs are 10 and 110.00000000000001 and add up to
    120.00000000000001. *)
Lemma totals_cost_differs_from_daily_costs :
  totals_cost (totals ledgerTwoDays ratesJanuary) = 120%float /\
  sumDayCost (dayMap ledgerTwoDays ratesJanuary) = 120.00000000000001%float /\
  totals_cost (totals ledgerTwoDays ratesJanuary)
    <> sumDayCost (dayMap ledgerTwoDays ratesJanuary).
Proof.
  repeat split; try (vm_compute; reflexivity).
  intros H. apply (f_equal (fun x : float => PrimFloat.eqb x 120%float)) in H.
  vm_compute in H. discriminate.
Qed.

(** ** Saving and loading *)

Section RoundTrip.
Context {N : JSNumber}.

Lemma loadLS_saveLS (st : Store) (key : string) (value fallback : JSValue) :
  loadLS (saveLS st key value) key fallback = jsonValue value.
Proof.
  unfold loadLS, saveLS, getItem, setItem. now rewrite String.eqb_refl.
Qed.

Lemma loadLS_saveLS_other (st : Store) (key key' : string) (value fallback : JSValue) :
  String.eqb key key' = false ->
  loadLS (saveLS st key' value) key fallback = loadLS st key fallback.
Proof.
  intros H. unfold loadLS, saveLS, getItem, setItem. now rewrite H.
Qed.

Lemma jsonValue_entry (e : Entry) :
  jsonExact (kg e) -> jsonValue (entryValue e) = entryValue e.
Proof. unfold jsonExact. intros H. cbn. now rewrite H. Qed.

Lemma jsonValue_rate (r : Rate) :
  jsonExact (cow r) -> jsonExact (buffalo r) ->
  jsonValue (rateValue r) = rateValue r.
Proof. unfold jsonExact. intros H1 H2. cbn. now rewrite H1, H2. Qed.

Lemma jsonValue_entries (l : list Entry) :
  Forall (fun e => jsonExact (kg e)) l ->
  jsonValue (entriesValue l) = entriesValue l.
Proof.
  intros H. unfold entriesValue. cbn [jsonValue]. f_equal.
  induction H as [|e t He _ IH]; [reflexivity|].
  cbn [map]. now rewrite IH, jsonValue_entry.
Qed.

Lemma jsonValue_rates (l : list Rate) :
  Forall (fun r => jsonExact (cow r) /\ jsonExact (buffalo r)) l ->
  jsonValue (ratesValue l) = ratesValue l.
Proof.
  intros H. unfold ratesValue. cbn [jsonValue]. f_equal.
  induction H as [|r t [Hc Hb] _ IH]; [reflexivity|].
  cbn [map]. now rewrite IH, jsonValue_rate.
Qed.

(** C8, for numbers that JSON can write.  When every weight of the ledger
    and every rate of the timeline is a number that JSON writes and reads
    back unchanged (finite, and not negative zero), saving the two
    collections and loading them again yields the same collections: the
    same records in the same order, with the same field names and values. *)
Theorem save_then_load_is_identity (s : AppState) (st : Store) (fallback : JSValue) :
  Forall (fun e => jsonExact (kg e)) (entries s) ->
  Forall (fun r => jsonExact (cow r) /\ jsonExact (buffalo r)) (rates s) ->
  loadLS (persist s st) LS_KEYS_entries fallback = entriesValue (entries s) /\
  loadLS (persist s st) LS_KEYS_rates fallback = ratesValue (rates s).
Proof.
  intros He Hr. unfold persist. split.
  - rewrite loadLS_saveLS_other by reflexivity.
    rewrite loadLS_saveLS. now apply jsonValue_entries.
  - rewrite loadLS_saveLS. now apply jsonValue_rates.
Qed.

End RoundTrip.

(** The counterpart of C8 in the arithmetic of the program: the ledger that
    holds the entry with an infinite weight comes back from the store with
    [null] for that weight. *)
Lemma save_then_load_loses_infinity :
  ledgerInfinity = [@mkEntry binary64 "2024-01-02" "cow" infinity] /\
  loadLS (saveLS emptyStore LS_KEYS_entries (entriesValue ledgerInfinity))
         LS_KEYS_entries (JArray []) =
    JArray [JObject [("date", JString "2024-01-02"); ("type", JString "cow");
                     ("kg", JNull)]] /\
  loadLS (saveLS emptyStore LS_KEYS_entries (entriesValue ledgerInfinity))
         LS_KEYS_entries (JArray []) <> entriesValue ledgerInfinity.
Proof.
  split; [reflexivity|]. split; [reflexivity|].
  vm_compute. discriminate.
Qed.

(** ** The calendar *)

Section CalendarFacts.
Local Open Scope Z_scope.

Ltac month_cases m :=
  let H := fresh "Hm" in
  assert (H : m = 0 \/ m = 1 \/ m = 2 \/ m = 3 \/ m = 4 \/ m = 5 \/ m = 6 \/
              m = 7 \/ m = 8 \/ m = 9 \/ m = 10 \/ m = 11) by lia;
  repeat (destruct H as [H|H]); subst m.

Lemma daysInMonth_bounds (y m : Z) : 28 <= daysInMonth y m <= 31.
Proof.
  unfold daysInMonth.
  repeat match goal with
         | |- context [match ?x with _ => _ end] => destruct x
         end; lia.
Qed.

Lemma daysBeforeMonth_succ (y m : Z) :
  0 <= m < 11 ->
  daysBeforeMonth y (m + 1) = daysBeforeMonth y m + daysInMonth y m.
Proof.
  intros H. month_cases m; try lia;
    unfold daysBeforeMonth, daysInMonth; simpl; destruct (isLeapYear y); lia.
Qed.

Lemma dayFromYear_succ (y : Z) :
  dayFromYear (y + 1) = dayFromYear y + 365 + (if isLeapYear y then 1 else 0).
Proof.
  unfold dayFromYear, isLeapYear.
  replace (y + 1 - 1970) with (y - 1969) by lia.
  replace (y + 1 - 1969) with (y - 1968) by lia.
  replace (y + 1 - 1901) with (y - 1900) by lia.
  replace (y + 1 - 1601) with (y - 1600) by lia.
  destruct (Z.eqb_spec (y mod 4) 0), (Z.eqb_spec (y mod 100) 0),
    (Z.eqb_spec (y mod 400) 0); cbn [andb orb negb];
    Z.div_mod_to_equations; lia.
Qed.

Lemma nextDay_valid (d : Date) : validDate d -> validDate (nextDay d).
Proof.
  destruct d as [y m dd]. unfold validDate, nextDay. simpl. intros [Hm Hd].
  destruct (Z.ltb_spec dd (daysInMonth y m)); simpl; [lia|].
  destruct (Z.ltb_spec m 11); simpl.
  - pose proof (daysInMonth_bounds y (m + 1)). lia.
  - pose proof (daysInMonth_bounds (y + 1) 0). lia.
Qed.

Lemma nextDay_dayNumber (d : Date) :
  validDate d -> dayNumber (nextDay d) = dayNumber d + 1.
Proof.
  destruct d as [y m dd]. unfold validDate, nextDay, dayNumber. simpl.
  intros [Hm Hd].
  destruct (Z.ltb_spec dd (daysInMonth y m)); simpl; [lia|].
  destruct (Z.ltb_spec m 11); simpl.
  - rewrite daysBeforeMonth_succ by lia. lia.
  - assert (m = 11) by lia. subst m.
    rewrite dayFromYear_succ. unfold daysBeforeMonth, daysInMonth in *.
    simpl in *. destruct (isLeapYear y); lia.
Qed.

Lemma prevDay_valid (d : Date) : validDate d -> validDate (prevDay d).
Proof.
  destruct d as [y m dd]. unfold validDate, prevDay. simpl. intros [Hm Hd].
  destruct (Z.ltb_spec 1 dd); simpl; [lia|].
  destruct (Z.ltb_spec 0 m); simpl.
  - pose proof (daysInMonth_bounds y (m - 1)). lia.
  - unfold daysInMonth. simpl. lia.
Qed.

Lemma nextDay_prevDay (d : Date) : validDate d -> nextDay (prevDay d) = d.
Proof.
  destruct d as [y m dd]. unfold validDate, prevDay, nextDay. simpl.
  intros [Hm Hd].
  destruct (Z.ltb_spec 1 dd); simpl.
  - destruct (Z.ltb_spec (dd - 1) (daysInMonth y m)); [|lia].
    f_equal. lia.
  - assert (dd = 1) by lia. subst dd.
    destruct (Z.ltb_spec 0 m); simpl.
    + rewrite Z.ltb_irrefl.
      destruct (Z.ltb_spec (m - 1) 11); [|lia].
      f_equal. lia.
    + assert (m = 0) by lia. subst m. simpl.
      replace (y - 1 + 1) with y by lia. reflexivity.
Qed.

Lemma prevDay_dayNumber (d : Date) :
  validDate d -> dayNumber (prevDay d) = dayNumber d - 1.
Proof.
  intros H.
  pose proof (nextDay_dayNumber (prevDay d) (prevDay_valid d H)) as E.
  rewrite (nextDay_prevDay d H) in E. lia.
Qed.

Lemma iter_nextDay_valid (n : nat) (d : Date) :
  validDate d -> validDate (Nat.iter n nextDay d).
Proof. intros H. induction n; simpl; auto using nextDay_valid. Qed.

Lemma iter_nextDay_dayNumber (n : nat) (d : Date) :
  validDate d -> dayNumber (Nat.iter n nextDay d) = dayNumber d + Z.of_nat n.
Proof.
  intros H. induction n as [|n IH]; [simpl; lia|].
  rewrite Nat.iter_succ, nextDay_dayNumber by now apply iter_nextDay_valid.
  lia.
Qed.

Lemma iter_prevDay_valid (n : nat) (d : Date) :
  validDate d -> validDate (Nat.iter n prevDay d).
Proof. intros H. induction n; simpl; auto using prevDay_valid. Qed.

Lemma iter_prevDay_dayNumber (n : nat) (d : Date) :
  validDate d -> dayNumber (Nat.iter n prevDay d) = dayNumber d - Z.of_nat n.
Proof.
  intros H. induction n as [|n IH]; [simpl; lia|].
  rewrite Nat.iter_succ, prevDay_dayNumber by now apply iter_prevDay_valid.
  lia.
Qed.

Lemma iter_nextDay_prevDay (n : nat) (d : Date) :
  validDate d -> Nat.iter n nextDay (Nat.iter n prevDay d) = d.
Proof.
  intros H. induction n as [|n IH]; [reflexivity|].
  rewrite (Nat.iter_succ_r n _ nextDay), (Nat.iter_succ n _ prevDay).
  rewrite nextDay_prevDay by now apply iter_prevDay_valid. exact IH.
Qed.

(** The days of a month, counted from its first. *)
Lemma iter_nextDay_in_month (y m : Z) (n : nat) :
  Z.of_nat n < daysInMonth y m ->
  Nat.iter n nextDay (mkDate y m 1) = mkDate y m (1 + Z.of_nat n).
Proof.
  induction n as [|n IH]; intros H; [reflexivity|].
  rewrite Nat.iter_succ, IH by lia. unfold nextDay.
  destruct (Z.ltb_spec (1 + Z.of_nat n) (daysInMonth y m)); [|lia].
  f_equal. lia.
Qed.

Lemma newDate_in_year (y m k : Z) :
  0 <= m <= 11 -> newDate y m k = addDays (k - 1) (mkDate y m 1).
Proof.
  intros H. unfold newDate.
  rewrite Z.div_small, Z.mod_small by lia. now rewrite Z.add_0_r.
Qed.

(** [cursor.setDate(cursor.getDate() + 1)] moves to the next day. *)
Lemma setDate_succ (d : Date) :
  validDate d -> setDate d (getDate d + 1) = nextDay d.
Proof.
  destruct d as [y m dd]. intros [Hm Hd]. simpl in Hm, Hd.
  unfold setDate. cbn [getFullYear getMonth getDate].
  rewrite newDate_in_year by lia. unfold addDays.
  destruct (Z.leb_spec 0 (dd + 1 - 1)); [|lia].
  replace (Z.to_nat (dd + 1 - 1)) with (S (Z.to_nat (dd - 1))) by lia.
  rewrite Nat.iter_succ, iter_nextDay_in_month by lia.
  f_equal. f_equal. lia.
Qed.

Lemma startOfMonth_first (a : Date) :
  validDate a -> startOfMonth a = mkDate (getFullYear a) (getMonth a) 1.
Proof.
  intros [Hm _]. unfold startOfMonth. now rewrite newDate_in_year.
Qed.

Lemma endOfMonth_last (a : Date) :
  validDate a ->
  endOfMonth a =
  mkDate (getFullYear a) (getMonth a) (daysInMonth (getFullYear a) (getMonth a)).
Proof.
  destruct a as [y m dd]. intros [Hm _]. simpl in Hm.
  unfold endOfMonth, newDate. cbn [getFullYear getMonth].
  change (addDays (0 - 1) ?d) with (prevDay d).
  destruct (Z.eq_dec m 11) as [->|Hne].
  { change ((11 + 1) / 12) with 1. change ((11 + 1) mod 12) with 0.
    unfold prevDay. simpl. f_equal. lia. }
  rewrite Z.div_small, Z.mod_small by lia. rewrite Z.add_0_r.
  unfold prevDay. cbn [Z.ltb Z.compare].
  destruct (Z.ltb_spec 0 (m + 1)); [|lia].
  replace (m + 1 - 1) with m by lia. reflexivity.
Qed.

Lemma startIdxOf_range (d : Date) : 0 <= startIdxOf d <= 6.
Proof. unfold startIdxOf. pose proof (Z.mod_pos_bound (getDay d + 6) 7). lia. Qed.

(** What the two loops of [daysMatrix] build from a cursor. *)
Lemma fillRow_spec (c : nat) (cursor : Date) :
  validDate cursor ->
  fillRow c cursor =
  (map (fun i => Nat.iter i nextDay cursor) (seq 0 c), Nat.iter c nextDay cursor).
Proof.
  revert cursor. induction c as [|c IH]; intros cursor H; [reflexivity|].
  cbn [fillRow]. rewrite setDate_succ by assumption.
  rewrite IH by now apply nextDay_valid.
  cbn [seq map]. rewrite <- seq_shift, map_map.
  f_equal.
  - f_equal. apply map_ext. intros i. now rewrite Nat.iter_succ_r.
  - now rewrite <- Nat.iter_succ_r.
Qed.

Lemma map_iter_shift (k n s : nat) (cursor : Date) :
  map (fun i => Nat.iter i nextDay (Nat.iter k nextDay cursor)) (seq s n) =
  map (fun i => Nat.iter i nextDay cursor) (seq (s + k) n).
Proof.
  revert s. induction n as [|n IH]; intros s; [reflexivity|].
  cbn [seq map]. rewrite <- Nat.iter_add. f_equal. apply (IH (S s)).
Qed.

Lemma fillRows_spec (r : nat) (cursor : Date) :
  validDate cursor ->
  Forall (fun row => List.length row = 7%nat) (fillRows r cursor) /\
  List.length (fillRows r cursor) = r /\
  List.concat (fillRows r cursor) =
  map (fun i => Nat.iter i nextDay cursor) (seq 0 (7 * r)).
Proof.
  revert cursor. induction r as [|r IH]; intros cursor H.
  - repeat split. constructor.
  - cbn [fillRows]. rewrite fillRow_spec by assumption.
    destruct (IH (Nat.iter 7 nextDay cursor)) as [Hrows [Hlen Hcells]];
      [now apply iter_nextDay_valid|].
    split; [|split].
    + constructor; [now rewrite length_map, length_seq | exact Hrows].
    + cbn [List.length]. now rewrite Hlen.
    + cbn [List.concat]. rewrite Hcells.
      replace (7 * S r)%nat with (7 + 7 * r)%nat by lia.
      rewrite seq_app, map_app. f_equal. apply map_iter_shift.
Qed.

End CalendarFacts.

Section CalendarGrid.
Local Open Scope Z_scope.

Lemma nth_error_map_seq {A : Type} (f : nat -> A) (n s i : nat) :
  nth_error (map f (seq s n)) i =
  if (i <? n)%nat then Some (f (s + i)%nat) else None.
Proof.
  revert s i. induction n as [|n IH]; intros s [|i]; cbn [seq map nth_error];
    try reflexivity.
  - now rewrite Nat.add_0_r.
  - rewrite IH. change (S i <? S n)%nat with (i <? n)%nat.
    now rewrite Nat.add_succ_r.
Qed.

Lemma first_of_month_valid (a : Date) :
  validDate a -> validDate (mkDate (getFullYear a) (getMonth a) 1).
Proof.
  intros [Hm _]. split; cbn; [exact Hm|].
  pose proof (daysInMonth_bounds (getFullYear a) (getMonth a)). lia.
Qed.

(** The cursor before the loops: [idx] days before the first of the
    month. *)
Lemma setDate_back (first : Date) (idx : Z) :
  validDate first -> getDate first = 1 -> 0 <= idx ->
  setDate first (getDate first - idx) = Nat.iter (Z.to_nat idx) prevDay first.
Proof.
  destruct first as [y m dd]. intros [Hm _] Hd Hidx. cbn in Hm, Hd. subst dd.
  unfold setDate. cbn [getFullYear getMonth getDate].
  rewrite newDate_in_year by lia. unfold addDays.
  destruct (Z.leb_spec 0 (1 - idx - 1)).
  - assert (idx = 0) by lia. subst idx. reflexivity.
  - f_equal. lia.
Qed.

Lemma ceilDiv_spec (t : Z) : 7 * (ceilDiv t 7 - 1) < t <= 7 * ceilDiv t 7.
Proof. unfold ceilDiv. Z.div_mod_to_equations. lia. Qed.

(** The cells of the grid, row after row, are consecutive days from the
    cursor. *)
Lemma daysMatrix_cells (a : Date) :
  validDate a ->
  let first := mkDate (getFullYear a) (getMonth a) 1 in
  let idx := startIdxOf first in
  let total := idx + daysInMonth (getFullYear a) (getMonth a) in
  exists cursor,
    validDate cursor /\
    dayNumber cursor = dayNumber first - idx /\
    Nat.iter (Z.to_nat idx) nextDay cursor = first /\
    Forall (fun row => List.length row = 7%nat) (daysMatrix a) /\
    Z.of_nat (List.length (daysMatrix a)) = ceilDiv total 7 /\
    List.concat (daysMatrix a) =
    map (fun i => Nat.iter i nextDay cursor)
        (seq 0 (7 * Z.to_nat (ceilDiv total 7))).
Proof.
  intros Ha first idx total.
  pose proof (first_of_month_valid a Ha) as Hfirst. fold first in Hfirst.
  pose proof (startIdxOf_range first) as Hidx. fold idx in Hidx.
  exists (Nat.iter (Z.to_nat idx) prevDay first).
  assert (Hc : validDate (Nat.iter (Z.to_nat idx) prevDay first))
    by now apply iter_prevDay_valid.
  split; [exact Hc|].
  split; [rewrite iter_prevDay_dayNumber by assumption; lia|].
  split; [now apply iter_nextDay_prevDay|].
  unfold daysMatrix.
  rewrite startOfMonth_first, endOfMonth_last by assumption.
  fold first. fold idx. cbn [getDate]. fold total.
  rewrite (setDate_back first idx Hfirst eq_refl) by lia.
  destruct (fillRows_spec (Z.to_nat (ceilDiv total 7)) _ Hc) as [Hrows [Hlen Hcells]].
  split; [exact Hrows|]. split; [|exact Hcells].
  rewrite Hlen. pose proof (ceilDiv_spec total).
  pose proof (daysInMonth_bounds (getFullYear a) (getMonth a)). lia.
Qed.

(** C7. For every anchor date the grid of [daysMatrix] is made of rows of
    seven cells; its first cell is a Monday, at most six days before the
    first of the anchor month; each cell is the day after the cell before
    it; the number of rows is the least that reaches the last day of the
    month; and every day of the month is in the grid exactly once, day [d]
    in cell [idx + d - 1], where [idx] is the Monday-first weekday of the
    first of the month. *)
Theorem daysMatrix_covers_month (a : Date) :
  validDate a ->
  let y := getFullYear a in
  let m := getMonth a in
  let first := mkDate y m 1 in
  let idx := startIdxOf first in
  let grid := daysMatrix a in
  let cells := List.concat grid in
  Forall (fun row => List.length row = 7%nat) grid /\
  (exists monday, nth_error cells 0 = Some monday /\ getDay monday = 1 /\
     dayNumber first - 6 <= dayNumber monday <= dayNumber first) /\
  (forall i c c', nth_error cells i = Some c -> nth_error cells (S i) = Some c' ->
     c' = nextDay c /\ dayNumber c' = dayNumber c + 1) /\
  (7 * (Z.of_nat (List.length grid) - 1) < idx + daysInMonth y m
   <= 7 * Z.of_nat (List.length grid)) /\
  (forall d, 1 <= d <= daysInMonth y m ->
     nth_error cells (Z.to_nat (idx + d - 1)) = Some (mkDate y m d) /\
     forall j, nth_error cells j = Some (mkDate y m d) ->
               j = Z.to_nat (idx + d - 1)).
Proof.
  intros Ha y m first idx grid cells.
  destruct (daysMatrix_cells a Ha)
    as [cursor [Hc [Hnum [Hfirst [Hrows [Hlen Hcells]]]]]].
  fold y m first idx grid in Hnum, Hfirst, Hrows, Hlen, Hcells.
  fold cells in Hcells.
  pose proof (startIdxOf_range first) as Hidx. fold idx in Hidx.
  pose proof (daysInMonth_bounds y m) as Hdim.
  pose proof (ceilDiv_spec (idx + daysInMonth y m)) as Hceil.
  set (rows := ceilDiv (idx + daysInMonth y m) 7) in *.
  assert (Hnth : forall i,
             nth_error cells i =
             if (i <? 7 * Z.to_nat rows)%nat
             then Some (Nat.iter i nextDay cursor) else None).
  { intros i. rewrite Hcells. apply nth_error_map_seq. }
  split; [exact Hrows|]. split; [|split; [|split]].
  - exists cursor. split; [|split].
    + rewrite Hnth. destruct (Nat.ltb_spec 0 (7 * Z.to_nat rows)); [reflexivity|lia].
    + unfold getDay. rewrite Hnum. unfold idx, startIdxOf, getDay.
      Z.div_mod_to_equations. lia.
    + lia.
  - intros i c c'. rewrite !Hnth.
    destruct (Nat.ltb_spec i (7 * Z.to_nat rows)); [|discriminate].
    destruct (Nat.ltb_spec (S i) (7 * Z.to_nat rows)); [|discriminate].
    intros [= <-] [= <-]. split; [reflexivity|].
    exact (nextDay_dayNumber _ (iter_nextDay_valid i cursor Hc)).
  - rewrite Hlen. exact Hceil.
  - intros d Hd.
    assert (Hday : Nat.iter (Z.to_nat (idx + d - 1)) nextDay cursor = mkDate y m d).
    { replace (Z.to_nat (idx + d - 1)) with (Z.to_nat (d - 1) + Z.to_nat idx)%nat by lia.
      rewrite Nat.iter_add, Hfirst. unfold first.
      rewrite iter_nextDay_in_month by lia. f_equal. lia. }
    split.
    + rewrite Hnth.
      destruct (Nat.ltb_spec (Z.to_nat (idx + d - 1)) (7 * Z.to_nat rows)); [|lia].
      now rewrite Hday.
    + intros j. rewrite Hnth.
      destruct (Nat.ltb_spec j (7 * Z.to_nat rows)); [|discriminate].
      intros [= Hj].
      assert (E : dayNumber (Nat.iter j nextDay cursor) =
                  dayNumber (Nat.iter (Z.to_nat (idx + d - 1)) nextDay cursor))
        by now rewrite Hj, Hday.
      rewrite !iter_nextDay_dayNumber in E by assumption. lia.
Qed.

End CalendarGrid.

(** ** The arithmetic of the program *)

(** Every positive finite double is written and read back unchanged by
    JSON. *)
Lemma binary64_positiveFinite_jsonExact (x : float) :
  @positiveFinite binary64 x = true -> @jsonExact binary64 x.
Proof.
  unfold positiveFinite, jsonExact.
  cbn [isFinite isNaN num_leb num_zero jsonNumber binary64].
  unfold is_finite, is_nan, is_infinity.
  rewrite classify_spec, leb_spec, !eqb_spec, abs_spec.
  change (Prim2SF infinity) with (S754_infinity false).
  change (Prim2SF zero) with (S754_zero false).
  destruct (Prim2SF x) as [s|s| |s m e]; intros H.
  - destruct s; discriminate H.
  - destruct s; discriminate H.
  - discriminate H.
  - unfold SF64classify, SFclassify.
    destruct s; destruct (Z.eqb _ _); reflexivity.
Qed.

(** At the unit price 0 the amount of a finite weight is zero. *)
Lemma binary64_zero_price_amount (w : float) :
  is_finite w = true -> (zero * w =? zero)%float = true.
Proof.
  unfold is_finite, is_nan, is_infinity.
  rewrite !eqb_spec, abs_spec, mul_spec.
  change (Prim2SF infinity) with (S754_infinity false).
  change (Prim2SF zero) with (S754_zero false).
  destruct (Prim2SF w) as [s|s| |s m e]; intros H.
  - destruct s; reflexivity.
  - destruct s; discriminate H.
  - discriminate H.
  - destruct s; reflexivity.
Qed.


#[export] Instance exact_zero_price : ZeroPrice exact.
Proof.
  constructor. intros w _. cbn.
  now rewrite (@num_mul_zero_l exact exact_laws), (@num_add_zero_l exact exact_laws).
Qed.

(** ** The scenarios of the specification *)

(** With the rates of 1 January 2024 (cow 50, buffalo 70): 2 kg of cow milk
    on that day cost 100. *)
Example scenario_first_entry_costs_100 :
  totals_cost (totals (entries stateJanuaryOnePurchase) ratesJanuary) = 100%float.
Proof. reflexivity. Qed.

(** An entry for 31 December 2023 is refused for want of a rate. *)
Example scenario_entry_before_first_rate :
  addEntry (@mkEntryDraft binary64 "2023-12-31" "cow" 1%float) stateJanuary =
  (stateJanuary, EntryRateMissing).
Proof. reflexivity. Qed.

(** A second rate record for 1 January 2024 is refused. *)
Example scenario_rate_not_after_latest :
  addRate (@mkRateDraft binary64 "2024-01-01" 55%float 75%float) stateJanuary =
  (stateJanuary, RateNotAfterLatest).
Proof. reflexivity. Qed.

(** After the rates of February, 31 January is priced at 50/70 and
    1 February at 55/75. *)
Example scenario_rates_by_date :
  let timeline := rates (addRates scenarioRateDrafts stateEmpty) in
  rateForDate timeline "2024-01-31" =
    Some (@mkRate binary64 "2024-01-01" 50%float 70%float) /\
  rateForDate timeline "2024-02-01" =
    Some (@mkRate binary64 "2024-02-01" 55%float 75%float).
Proof. split; reflexivity. Qed.

(** February 2024 starts on a Thursday: the grid has five rows, from
    Monday 29 January to Sunday 3 March. *)
Example scenario_grid_february_2024 :
  List.length (daysMatrix midFebruary2024) = 5%nat /\
  hd_error (List.concat (daysMatrix midFebruary2024)) = Some (mkDate 2024 0 29) /\
  nth_error (List.concat (daysMatrix midFebruary2024)) 34 = Some (mkDate 2024 2 3).
Proof. repeat split; reflexivity. Qed.

(** ** The properties on the sample data *)

Lemma addRates_latest_is_maximum_scenario :
  increasing (map effectiveFrom (rates stateEmpty)) /\
  rates (addRates scenarioRateDrafts stateEmpty) =
    [@mkRate binary64 "2024-01-01" 50%float 70%float;
     @mkRate binary64 "2024-02-01" 55%float 75%float] /\
  increasing (map effectiveFrom (rates (addRates scenarioRateDrafts stateEmpty))) /\
  latestRate (rates (addRates scenarioRateDrafts stateEmpty)) =
  lastInserted (rates (addRates scenarioRateDrafts stateEmpty)).
Proof.
  assert (H : increasing (map effectiveFrom (rates stateEmpty))) by constructor.
  split; [exact H|]. split; [reflexivity|].
  pose proof (addRates_latest_is_maximum stateEmpty scenarioRateDrafts H) as T.
  split; [exact (proj1 T) | exact (proj1 (proj2 T))].
Defined.

Lemma addEntry_rate_missing_iff_scenario :
  entryDraftAccepted entryDraftNewYear = true /\
  addEntry entryDraftNewYear stateJanuary =
    (@mkApp binary64 [@mkEntry binary64 "2024-01-01" "cow" 2%float]
            ratesJanuary false true, EntrySaved) /\
  rateForDate (rates stateJanuary) "2024-01-01" =
    Some (@mkRate binary64 "2024-01-01" 50%float 70%float).
Proof.
  assert (H : entryDraftAccepted entryDraftNewYear = true) by reflexivity.
  split; [exact H|].
  pose proof (proj2 (addEntry_rate_missing_iff entryDraftNewYear stateJanuary H)
                    (@mkRate binary64 "2024-01-01" 50%float 70%float)) as T.
  assert (Hinc : increasing (map effectiveFrom (rates stateJanuary)))
    by (repeat constructor).
  specialize (T Hinc (or_introl eq_refl) eq_refl).
  split; [exact (proj1 T) | exact (proj1 (proj2 T))].
Defined.

Lemma totals_cost_is_sum_of_daily_costs_exact :
  totals_cost (totals ledgerTwoDaysExact ratesJanuaryExact) =
  sumDayCost (dayMap ledgerTwoDaysExact ratesJanuaryExact).
Proof.
  exact (@totals_cost_is_sum_of_daily_costs exact exact_laws
           ledgerTwoDaysExact ratesJanuaryExact).
Defined.

Lemma save_then_load_is_identity_scenario :
  Forall (fun e => jsonExact (kg e)) (entries stateJanuaryOnePurchase) /\
  Forall (fun r => jsonExact (cow r) /\ jsonExact (buffalo r))
         (rates stateJanuaryOnePurchase) /\
  loadLS (persist stateJanuaryOnePurchase emptyStore) LS_KEYS_entries (JArray []) =
    entriesValue (entries stateJanuaryOnePurchase) /\
  loadLS (persist stateJanuaryOnePurchase emptyStore) LS_KEYS_rates (JArray []) =
    ratesValue (rates stateJanuaryOnePurchase).
Proof.
  assert (He : Forall (fun e => jsonExact (kg e)) (entries stateJanuaryOnePurchase))
    by (repeat constructor).
  assert (Hr : Forall (fun r => jsonExact (cow r) /\ jsonExact (buffalo r))
                      (rates stateJanuaryOnePurchase))
    by (repeat constructor).
  split; [exact He|]. split; [exact Hr|].
  exact (save_then_load_is_identity stateJanuaryOnePurchase emptyStore (JArray [])
                                    He Hr).
Defined.

Lemma daysMatrix_covers_month_february_2024 :
  validDate midFebruary2024 /\
  Forall (fun row => List.length row = 7%nat) (daysMatrix midFebruary2024) /\
  (7 * (Z.of_nat (List.length (daysMatrix midFebruary2024)) - 1)
   < startIdxOf (mkDate 2024 1 1) + daysInMonth 2024 1
   <= 7 * Z.of_nat (List.length (daysMatrix midFebruary2024)))%Z.
Proof.
  assert (H : validDate midFebruary2024) by (unfold validDate; cbn; lia).
  split; [exact H|].
  pose proof (daysMatrix_covers_month midFebruary2024 H) as T.
  split; [exact (proj1 T) | exact (proj1 (proj2 (proj2 (proj2 T))))].
Defined.

(** * Further properties of the program *)

(** ** The rate in effect as the timeline grows *)

Section Lookup.
Context {N : JSNumber}.
Local Open Scope num_scope.

Lemma latestRate_lastInserted (rates : list Rate) :
  latestRate rates = lastInserted (sortedRates rates).
Proof. reflexivity. Qed.

(** The scan on a list that starts wholly on or before the date ends on
    its last record. *)
Lemma rateScan_all_before (dateKey : dateKey) (l : list Rate) (found : option Rate) :
  Forall (fun r => key_leb (effectiveFrom r) dateKey = true) l ->
  rateScan found l dateKey =
  match lastInserted l with
  | Some x => Some x
  | None => found
  end.
Proof.
  intros H. revert found. induction H as [|y t Hy _ IH]; intros found; [reflexivity|].
  cbn [rateScan]. rewrite Hy, IH.
  destruct t as [|z t']; [reflexivity|].
  rewrite lastInserted_cons.
  destruct (lastInserted (z :: t')) eqn:E; [reflexivity|].
  apply lastInserted_None in E. discriminate.
Qed.

(** The scan after one more record at the end of an increasing list. *)
Lemma rateScan_snoc (dateKey : dateKey) (l : list Rate) (x : Rate) (found : option Rate) :
  Forall (fun r => key_ltb (effectiveFrom r) (effectiveFrom x) = true) l ->
  rateScan found (l ++ [x]) dateKey =
  if key_leb (effectiveFrom x) dateKey then Some x else rateScan found l dateKey.
Proof.
  intros H. revert found. induction H as [|y t Hy _ IH]; intros found.
  - reflexivity.
  - cbn [app rateScan].
    destruct (key_leb (effectiveFrom y) dateKey) eqn:Hd; [apply IH|].
    destruct (key_leb (effectiveFrom x) dateKey) eqn:Hx; [|reflexivity].
    apply key_ltb_leb in Hy.
    rewrite (key_leb_trans _ _ _ Hy Hx) in Hd. discriminate.
Qed.

Lemma increasing_snoc_inv (l : list Rate) (x : Rate) :
  increasing (map effectiveFrom (l ++ [x])) ->
  increasing (map effectiveFrom l) /\
  Forall (fun r => key_ltb (effectiveFrom r) (effectiveFrom x) = true) l.
Proof.
  unfold increasing. induction l as [|y t IH]; cbn [app map]; intros H.
  - split; constructor.
  - inversion H as [|? ? Hs Hy]; subst.
    destruct (IH Hs) as [Ht Hall].
    rewrite map_app in Hy. apply Forall_app in Hy. destruct Hy as [Hy1 Hy2].
    split.
    + constructor; assumption.
    + constructor; [|exact Hall]. now inversion Hy2.
Qed.

Lemma rateForDate_snoc (l : list Rate) (x : Rate) (dateKey : dateKey) :
  increasing (map effectiveFrom (l ++ [x])) ->
  rateForDate (l ++ [x]) dateKey =
  if key_leb (effectiveFrom x) dateKey then Some x else rateForDate l dateKey.
Proof.
  intros H. destruct (increasing_snoc_inv l x H) as [Hl Hall].
  unfold rateForDate.
  rewrite (sortedRates_id _ (increasing_sorted _ H)).
  rewrite (sortedRates_id _ (increasing_sorted _ Hl)).
  now apply rateScan_snoc.
Qed.

(** X1. For every timeline, in whatever order it is stored: [latestRate]
    is undefined only for the empty timeline; otherwise it is a record of
    the timeline that starts on or after every record; and it is the rate
    in effect on its own first day and on every later date. *)
Theorem latestRate_is_rate_from_its_start (rates : list Rate) :
  (latestRate rates = None <-> rates = []) /\
  (forall latest, latestRate rates = Some latest ->
     In latest rates /\
     (forall r, In r rates ->
        key_leb (effectiveFrom r) (effectiveFrom latest) = true) /\
     (forall dateKey, key_leb (effectiveFrom latest) dateKey = true ->
        rateForDate rates dateKey = Some latest)).
Proof.
  rewrite latestRate_lastInserted. split.
  - split.
    + intros H. apply lastInserted_None in H.
      apply Permutation_nil. rewrite <- H. apply sortedRates_perm.
    + intros ->. reflexivity.
  - intros latest Hl.
    assert (Hmax : forall r, In r (sortedRates rates) -> rate_le r latest)
      by (apply sorted_last_greatest; [apply sortedRates_sorted | exact Hl]).
    split; [|split].
    + apply (proj1 (sortedRates_In rates latest)). now apply lastInserted_In.
    + intros r Hr. apply Hmax. now apply sortedRates_In.
    + intros dateKey Hd. unfold rateForDate.
      rewrite rateScan_all_before, Hl; [reflexivity|].
      rewrite Forall_forall. intros r Hr.
      eapply key_leb_trans; [apply (Hmax r Hr) | exact Hd].
Qed.

(** X2. When [addRate] saves a record on a timeline in increasing order,
    the rate in effect changes exactly for the dates on or after the new
    record's first day, where it becomes the new record; every earlier date
    keeps the rate it had. *)
Theorem addRate_reprices_from_its_start (draft : RateDraft) (s : AppState) :
  increasing (map effectiveFrom (rates s)) ->
  snd (addRate draft s) = RateSaved ->
  let clean :=
    mkRate (draft_effectiveFrom draft) (draft_cow draft) (draft_buffalo draft) in
  forall dateKey,
    rateForDate (rates (fst (addRate draft s))) dateKey =
    if key_leb (effectiveFrom clean) dateKey then Some clean
    else rateForDate (rates s) dateKey.
Proof.
  intros Hinc Hsaved clean dateKey.
  pose proof (addRate_keeps_increasing draft s Hinc) as Hinc'.
  destruct (addRate_step draft s Hinc)
    as [[_ [_ [Hr _]]]|[[Ho _]|[Ho _]]]; try congruence.
  rewrite Hr in *. now apply rateForDate_snoc.
Qed.

End Lookup.

(** ** Sessions of inserts *)

Section SessionFacts.
Context {N : JSNumber}.
Local Open Scope num_scope.

(** One call of [addEntry]. *)
Lemma addEntry_step (d : EntryDraft) (s : AppState) :
  let clean := mkEntry (draft_date d) (draft_type d) (draft_kg d) in
  (snd (addEntry d s) = EntrySaved /\
   entryDraftAccepted d = true /\
   (exists r, rateForDate (rates s) (date clean) = Some r) /\
   entries (fst (addEntry d s)) = entries s ++ [clean] /\
   rates (fst (addEntry d s)) = rates s)
  \/
  (snd (addEntry d s) <> EntrySaved /\ fst (addEntry d s) = s).
Proof.
  intros clean. unfold addEntry, entryDraftAccepted. cbn [date kg].
  destruct (falsy (draft_date d) || isNaN (draft_kg d) || (draft_kg d <=? num_zero));
    cbn [negb].
  - right. split; [discriminate | reflexivity].
  - destruct (rateForDate (rates s) (draft_date d)) as [r|] eqn:Hr.
    + left. cbn. repeat split. now exists r.
    + right. split; [discriminate | reflexivity].
Qed.

Lemma act_keeps_increasing (a : Action) (s : AppState) :
  increasing (map effectiveFrom (rates s)) ->
  increasing (map effectiveFrom (rates (act a s))).
Proof.
  intros H. destruct a as [d|d]; cbn [act].
  - destruct (addEntry_step d s) as [[_ [_ [_ [_ Hr]]]]|[_ Hs]].
    + now rewrite Hr.
    + now rewrite Hs.
  - now apply addRate_keeps_increasing.
Qed.

Lemma covered_snoc (l : list Rate) (x : Rate) (e : Entry) :
  increasing (map effectiveFrom (l ++ [x])) ->
  covered l e = true -> covered (l ++ [x]) e = true.
Proof.
  intros H. unfold covered. rewrite (rateForDate_snoc l x (date e) H).
  now destruct (key_leb (effectiveFrom x) (date e)).
Qed.

Lemma act_keeps_covered (a : Action) (s : AppState) :
  increasing (map effectiveFrom (rates s)) ->
  Forall (fun e => covered (rates s) e = true) (entries s) ->
  Forall (fun e => covered (rates (act a s)) e = true) (entries (act a s)).
Proof.
  intros Hinc Hcov. destruct a as [d|d]; cbn [act].
  - destruct (addEntry_step d s) as [[_ [_ [[r Hr] [He Hrs]]]]|[_ Hs]].
    + rewrite He, Hrs. apply Forall_app. split; [exact Hcov|].
      constructor; [|constructor]. unfold covered. now rewrite Hr.
    + now rewrite Hs.
  - pose proof (addRate_keeps_increasing d s Hinc) as Hinc'.
    destruct (addRate_step d s Hinc)
      as [[_ [_ [Hr [He _]]]]|[[_ [_ Hs]]|[_ [_ [Hs _]]]]].
    + rewrite Hr in *. rewrite He.
      eapply Forall_impl; [|exact Hcov]. intros e. now apply covered_snoc.
    + now rewrite Hs.
    + now rewrite Hs.
Qed.

(** X3. From a state whose timeline is in increasing order and whose
    entries all have a rate in effect (the empty state at the start), after
    every sequence of calls of [addEntry] and [addRate] every entry of the
    ledger still has a rate in effect on its date: [rateForDate] finds one
    for each, and [totals] skips none. *)
Theorem run_keeps_every_entry_covered (actions : list Action) (s0 : AppState) :
  increasing (map effectiveFrom (rates s0)) ->
  Forall (fun e => covered (rates s0) e = true) (entries s0) ->
  let s := run actions s0 in
  increasing (map effectiveFrom (rates s)) /\
  (forall e, In e (entries s) -> exists r, rateForDate (rates s) (date e) = Some r) /\
  filter (covered (rates s)) (entries s) = entries s.
Proof.
  revert s0. induction actions as [|a rest IH]; intros s0 Hinc Hcov; cbn [run fold_left].
  - split; [exact Hinc|]. split.
    + intros e He. rewrite Forall_forall in Hcov. specialize (Hcov e He).
      unfold covered in Hcov.
      destruct (rateForDate (rates s0) (date e)) as [r|]; [now exists r | discriminate].
    + clear Hinc. induction Hcov as [|e t He _ IHt]; [reflexivity|].
      cbn [filter]. now rewrite He, IHt.
  - apply IH; [now apply act_keeps_increasing | now apply act_keeps_covered].
Qed.

Lemma act_keeps_checked (a : Action) (s : AppState) :
  Forall (fun e => entryChecked e = true) (entries s) ->
  Forall (fun r => rateChecked r = true) (rates s) ->
  Forall (fun e => entryChecked e = true) (entries (act a s)) /\
  Forall (fun r => rateChecked r = true) (rates (act a s)).
Proof.
  intros He Hr. destruct a as [d|d]; cbn [act].
  - unfold addEntry. cbn [date kg].
    destruct (falsy (draft_date d) || isNaN (draft_kg d) || (draft_kg d <=? num_zero))
      eqn:Hchk; [now split|].
    destruct (rateForDate (rates s) (draft_date d)); [|now split].
    cbn. split; [|exact Hr]. apply Forall_app. split; [exact He|].
    constructor; [|constructor]. unfold entryChecked. cbn [date kg].
    now rewrite Hchk.
  - unfold addRate. cbn [effectiveFrom cow buffalo].
    destruct (falsy (draft_effectiveFrom d) || isNaN (draft_cow d)
              || isNaN (draft_buffalo d) || (draft_cow d <=? num_zero)
              || (draft_buffalo d <=? num_zero)) eqn:Hchk; [now split|].
    assert (Hnew : Forall (fun r => rateChecked r = true)
                          (rates s ++ [mkRate (draft_effectiveFrom d) (draft_cow d)
                                              (draft_buffalo d)])).
    { apply Forall_app. split; [exact Hr|].
      constructor; [|constructor]. unfold rateChecked.
      cbn [effectiveFrom cow buffalo]. now rewrite Hchk. }
    destruct (latestRate (rates s)) as [latest|]; [|now split].
    destruct (key_leb (draft_effectiveFrom d) (effectiveFrom latest)); now split.
Qed.

(** X4. Every record that a sequence of calls of [addEntry] and [addRate]
    leaves in the ledger or in the timeline, on top of checked ones, passed
    the checks of the insert: its date is not empty and its weight, or each
    of its two rates, is not NaN and is above zero. *)
Theorem run_keeps_records_checked (actions : list Action) (s0 : AppState) :
  Forall (fun e => entryChecked e = true) (entries s0) ->
  Forall (fun r => rateChecked r = true) (rates s0) ->
  let s := run actions s0 in
  (forall e, In e (entries s) ->
     date e <> "" /\ isNaN (kg e) = false /\ (kg e <=? num_zero) = false) /\
  (forall r, In r (rates s) ->
     effectiveFrom r <> "" /\
     isNaN (cow r) = false /\ isNaN (buffalo r) = false /\
     (cow r <=? num_zero) = false /\ (buffalo r <=? num_zero) = false).
Proof.
  revert s0. induction actions as [|a rest IH]; intros s0 He Hr; cbn [run fold_left].
  - rewrite Forall_forall in He, Hr. split.
    + intros e Hin. specialize (He e Hin). unfold entryChecked in He.
      apply negb_true_iff in He. rewrite !orb_false_iff in He.
      destruct He as [[Hd Hn] Hk]. repeat split; auto.
      unfold falsy in Hd. now apply String.eqb_neq.
    + intros r Hin. specialize (Hr r Hin). unfold rateChecked in Hr.
      apply negb_true_iff in Hr. rewrite !orb_false_iff in Hr.
      destruct Hr as [[[[Hd Hc] Hb] Hc0] Hb0]. repeat split; auto.
      unfold falsy in Hd. now apply String.eqb_neq.
  - destruct (act_keeps_checked a s0 He Hr) as [He' Hr']. now apply IH.
Qed.

Lemma act_appends (a : Action) (s : AppState) :
  (exists es, entries (act a s) = entries s ++ es) /\
  (exists rs, rates (act a s) = rates s ++ rs).
Proof.
  destruct a as [d|d]; cbn [act].
  - destruct (addEntry_step d s) as [[_ [_ [_ [He Hr]]]]|[_ Hs]].
    + rewrite He, Hr. split; [eexists; reflexivity | exists []; now rewrite app_nil_r].
    + rewrite Hs. split; exists []; now rewrite app_nil_r.
  - unfold addRate.
    destruct (falsy _ || isNaN _ || isNaN _ || (_ <=? _) || (_ <=? _));
      [split; exists []; now rewrite app_nil_r|].
    destruct (latestRate (rates s)) as [latest|].
    + destruct (key_leb _ _); cbn.
      * split; exists []; now rewrite app_nil_r.
      * split; [exists []; now rewrite app_nil_r | eexists; reflexivity].
    + cbn. split; [exists []; now rewrite app_nil_r | eexists; reflexivity].
Qed.

(** X5. No sequence of calls of [addEntry] and [addRate] removes, moves or
    changes a stored record: the ledger and the timeline it starts from are
    the beginnings of the ledger and the timeline it ends with. *)
Theorem run_only_appends (actions : list Action) (s0 : AppState) :
  (exists es, entries (run actions s0) = entries s0 ++ es) /\
  (exists rs, rates (run actions s0) = rates s0 ++ rs).
Proof.
  revert s0. induction actions as [|a rest IH]; intros s0; cbn [run fold_left].
  - split; exists []; now rewrite app_nil_r.
  - destruct (act_appends a s0) as [[es1 He1] [rs1 Hr1]].
    destruct (IH (act a s0)) as [[es2 He2] [rs2 Hr2]].
    unfold run in He2, Hr2. rewrite He2, Hr2, He1, Hr1.
    split; [exists (es1 ++ es2) | exists (rs1 ++ rs2)]; now rewrite app_assoc.
Qed.

(** X6. When [addEntry] saves an entry, [totals] of the new state are those
    of the old one with the entry's weight added to the cow or the buffalo
    figure and its weight times the unit price of the rate in effect on its
    date added to the cost. *)
Theorem addEntry_adds_to_totals (draft : EntryDraft) (s : AppState) :
  snd (addEntry draft s) = EntrySaved ->
  let clean := mkEntry (draft_date draft) (draft_type draft) (draft_kg draft) in
  let s' := fst (addEntry draft s) in
  let t := totals (entries s) (rates s) in
  let cowKg' := if isCow clean then totals_cowKg t + kg clean else totals_cowKg t in
  let bufKg' := if isCow clean then totals_bufKg t else totals_bufKg t + kg clean in
  exists r,
    rateForDate (rates s) (date clean) = Some r /\
    totals (entries s') (rates s') =
      mkTotals cowKg' bufKg' (cowKg' + bufKg') (totals_cost t + lineCost r clean).
Proof.
  intros Hsaved clean s' t cowKg' bufKg'.
  destruct (addEntry_step draft s) as [[_ [_ [[r Hr] [He Hrs]]]]|[Hno _]];
    [|congruence].
  exists r. split; [exact Hr|].
  subst s' t cowKg' bufKg'. rewrite He, Hrs. unfold totals.
  rewrite fold_left_app. cbn [fold_left].
  destruct (fold_left (totalsStep (rates s)) (entries s)
                      (num_zero, num_zero, num_zero)) as [[c b] k].
  unfold totalsStep, lineCost. rewrite Hr.
  cbn [totals_cowKg totals_bufKg totals_cost]. subst clean.
  now destruct (isCow _).
Qed.

Lemma totals_same_rates (es : list Entry) (rates1 rates2 : list Rate) :
  (forall e, In e es -> rateForDate rates1 (date e) = rateForDate rates2 (date e)) ->
  totals es rates1 = totals es rates2.
Proof.
  intros H. unfold totals.
  assert (E : forall acc,
             fold_left (totalsStep rates1) es acc = fold_left (totalsStep rates2) es acc).
  { induction es as [|e t IH]; intros acc; [reflexivity|]. cbn [fold_left].
    rewrite IH by (intros e' He'; apply H; now right).
    f_equal. unfold totalsStep. now rewrite (H e (or_introl eq_refl)). }
  now rewrite E.
Qed.

Lemma dayMap_same_rates (es : list Entry) (rates1 rates2 : list Rate) :
  (forall e, In e es -> rateForDate rates1 (date e) = rateForDate rates2 (date e)) ->
  dayMap es rates1 = dayMap es rates2.
Proof.
  intros H. unfold dayMap.
  assert (E : forall m,
             fold_left (dayMapStep rates1) es m = fold_left (dayMapStep rates2) es m).
  { induction es as [|e t IH]; intros m; [reflexivity|]. cbn [fold_left].
    rewrite IH by (intros e' He'; apply H; now right).
    f_equal. unfold dayMapStep. now rewrite (H e (or_introl eq_refl)). }
  apply E.
Qed.

(** X7. Past entries keep their rates: when [addRate] saves a record on a
    timeline in increasing order, [totals] and [dayMap] of any entries
    dated before the record's first day are what they were before. *)
Theorem addRate_keeps_past_amounts (draft : RateDraft) (s : AppState) (es : list Entry) :
  increasing (map effectiveFrom (rates s)) ->
  snd (addRate draft s) = RateSaved ->
  Forall (fun e => key_ltb (date e) (draft_effectiveFrom draft) = true) es ->
  totals es (rates (fst (addRate draft s))) = totals es (rates s) /\
  dayMap es (rates (fst (addRate draft s))) = dayMap es (rates s).
Proof.
  intros Hinc Hsaved Hpast.
  pose proof (addRate_keeps_increasing draft s Hinc) as Hinc'.
  destruct (addRate_step draft s Hinc)
    as [[_ [_ [Hr _]]]|[[Ho _]|[Ho _]]]; try congruence.
  rewrite Hr in *.
  assert (Hsame : forall e, In e es ->
            rateForDate (rates s ++ [mkRate (draft_effectiveFrom draft) (draft_cow draft)
                                            (draft_buffalo draft)]) (date e) =
            rateForDate (rates s) (date e)).
  { intros e He. rewrite rateForDate_snoc by assumption. cbn [effectiveFrom].
    rewrite Forall_forall in Hpast. specialize (Hpast e He).
    apply key_leb_false in Hpast. now rewrite Hpast. }
  split; [now apply totals_same_rates | now apply dayMap_same_rates].
Qed.

End SessionFacts.

(** ** The buckets of [dayMap] *)

Section DayBuckets.
Context {N : JSNumber}.
Local Open Scope num_scope.

Lemma map_get_set_other (m : DayMap) (k k' : dateKey) (v : DaySum) :
  k' <> k -> map_get (map_set m k' v) k = map_get m k.
Proof.
  intros Hne. induction m as [|[k0 v0] t IH]; simpl.
  - destruct (String.eqb_spec k' k); [contradiction | reflexivity].
  - destruct (String.eqb_spec k0 k') as [->|Hk0]; simpl.
    + destruct (String.eqb_spec k' k); [contradiction | reflexivity].
    + now rewrite IH.
Qed.

Lemma map_set_keys (m : DayMap) (k : dateKey) (v : DaySum) :
  map fst (map_set m k v) =
  if existsb (String.eqb k) (map fst m) then map fst m else map fst m ++ [k].
Proof.
  induction m as [|[k0 v0] t IH]; simpl; [reflexivity|].
  rewrite (String.eqb_sym k k0).
  destruct (String.eqb k0 k); simpl; [reflexivity|].
  rewrite IH. now destruct (existsb (String.eqb k) (map fst t)).
Qed.

Lemma existsb_eqb_In (k : dateKey) (l : list dateKey) :
  existsb (String.eqb k) l = true <-> In k l.
Proof.
  rewrite existsb_exists. split.
  - intros [x [Hx E]]. apply String.eqb_eq in E. now subst.
  - intros H. exists k. split; [exact H | apply String.eqb_refl].
Qed.

Lemma map_set_keys_In (m : DayMap) (k k' : dateKey) (v : DaySum) :
  In k' (map fst (map_set m k v)) <-> k' = k \/ In k' (map fst m).
Proof.
  rewrite map_set_keys.
  destruct (existsb (String.eqb k) (map fst m)) eqn:E.
  - apply existsb_eqb_In in E. split; [now right | intros [->|]; assumption].
  - rewrite in_app_iff. cbn. intuition.
Qed.

Lemma map_set_keys_NoDup (m : DayMap) (k : dateKey) (v : DaySum) :
  NoDup (map fst m) -> NoDup (map fst (map_set m k v)).
Proof.
  intros H. rewrite map_set_keys.
  destruct (existsb (String.eqb k) (map fst m)) eqn:E; [exact H|].
  assert (Hk : ~ In k (map fst m)).
  { intros Hin. apply existsb_eqb_In in Hin. congruence. }
  clear E. induction (map fst m) as [|x t IH]; cbn.
  - constructor; [intros [] | constructor].
  - inversion H as [|? ? Hx Ht]; subst. constructor.
    + rewrite in_app_iff. cbn. intros [Hin|[->|[]]]; [contradiction|].
      apply Hk. now left.
    + apply IH; [exact Ht|]. intros Hin. apply Hk. now right.
Qed.

Lemma map_get_None (m : DayMap) (k : dateKey) :
  map_get m k = None <-> ~ In k (map fst m).
Proof.
  induction m as [|[k0 v0] t IH]; simpl; [intuition|].
  destruct (String.eqb_spec k0 k) as [->|Hne].
  - split; [discriminate | intros H; exfalso; apply H; now left].
  - rewrite IH. intuition.
Qed.

Lemma dayMap_fold_keys (rates : list Rate) (es : list Entry) (m : DayMap) :
  NoDup (map fst m) ->
  NoDup (map fst (fold_left (dayMapStep rates) es m)) /\
  forall k, In k (map fst (fold_left (dayMapStep rates) es m)) <->
            In k (map fst m) \/ exists e, In e es /\ date e = k.
Proof.
  revert m. induction es as [|e t IH]; intros m Hm; cbn [fold_left].
  - split; [exact Hm|]. intros k. split; [now left|].
    intros [H|[e [[] _]]]. exact H.
  - destruct (IH (dayMapStep rates m e)) as [Hnd Hin].
    { unfold dayMapStep. now apply map_set_keys_NoDup. }
    split; [exact Hnd|]. intros k. rewrite Hin.
    unfold dayMapStep at 1. rewrite map_set_keys_In. split.
    + intros [[->|H]|[e' [He' Hk]]].
      * right. exists e. split; [now left | reflexivity].
      * now left.
      * right. exists e'. split; [now right | exact Hk].
    + intros [H|[e' [[<-|He'] Hk]]].
      * left. now right.
      * left. left. now symmetry.
      * right. now exists e'.
Qed.

(** X8. [dayMap] holds one bucket for each distinct date of the entries it
    is given and no other: no date key is there twice, a date key is there
    exactly when some entry has that date, and the lookup of a date finds
    nothing exactly when no entry has it. *)
Theorem dayMap_one_bucket_per_date (es : list Entry) (rates : list Rate) :
  NoDup (map fst (dayMap es rates)) /\
  (forall k, In k (map fst (dayMap es rates)) <-> exists e, In e es /\ date e = k) /\
  (forall k, map_get (dayMap es rates) k = None <->
             forall e, In e es -> date e <> k).
Proof.
  unfold dayMap.
  destruct (dayMap_fold_keys rates es [] (NoDup_nil _)) as [Hnd Hin].
  assert (Hkeys : forall k, In k (map fst (fold_left (dayMapStep rates) es [])) <->
                            exists e, In e es /\ date e = k).
  { intros k. rewrite Hin. cbn. intuition. }
  split; [exact Hnd|]. split; [exact Hkeys|].
  intros k. rewrite map_get_None, Hkeys. split.
  - intros H e He Hk. apply H. now exists e.
  - intros H [e [He Hk]]. now apply (H e He).
Qed.

Lemma dayMapStep_on_date (rates : list Rate) (m : DayMap) (e : Entry) (r : Rate) :
  rateForDate rates (date e) = Some r ->
  map_get (dayMapStep rates m e) (date e) =
  Some (bucket (totalsStep rates (figures (bucketOf m (date e))) e)).
Proof.
  intros Hr. unfold dayMapStep. rewrite map_get_set.
  fold (bucketOf m (date e)). unfold totalsStep, figures, bucket, dayPerKg.
  rewrite Hr. now destruct (isCow e).
Qed.

Lemma dayMap_fold_bucket (rates : list Rate) (k : dateKey) (r : Rate) :
  rateForDate rates k = Some r ->
  forall es m,
    map_get (fold_left (dayMapStep rates) es m) k =
    if existsb (onDate k) es
    then Some (bucket (fold_left (totalsStep rates) (filter (onDate k) es)
                                 (figures (bucketOf m k))))
    else map_get m k.
Proof.
  intros Hr. induction es as [|e t IH]; intros m; cbn [fold_left]; [reflexivity|].
  rewrite IH. cbn [existsb filter].
  destruct (onDate k e) eqn:Hk; unfold onDate in Hk.
  - apply String.eqb_eq in Hk. cbn [orb fold_left].
    assert (Hb : figures (bucketOf (dayMapStep rates m e) k) =
                 totalsStep rates (figures (bucketOf m k)) e).
    { unfold bucketOf at 1. subst k. rewrite (dayMapStep_on_date rates m e r Hr).
      unfold bucket, figures.
      now destruct (totalsStep rates (cowKg (bucketOf m (date e)),
                                      bufKg (bucketOf m (date e)),
                                      cost (bucketOf m (date e))) e) as [[c b] c0]. }
    rewrite Hb.
    destruct (existsb (onDate k) t) eqn:Ht; [reflexivity|].
    assert (Hf : filter (onDate k) t = []).
    { clear -Ht. induction t as [|x t IH]; [reflexivity|].
      cbn in Ht |- *. apply orb_false_iff in Ht. destruct Ht as [Hx Ht].
      rewrite Hx. now apply IH. }
    rewrite Hf. cbn [fold_left]. subst k.
    now rewrite (dayMapStep_on_date rates m e r Hr).
  - apply String.eqb_neq in Hk. cbn [orb]. unfold bucketOf at 1, dayMapStep at 1 2.
    rewrite map_get_set_other by assumption. reflexivity.
Qed.

(** X9. For a date on which a rate is in effect, the bucket that [dayMap]
    keeps for the date holds exactly what [totals] computes from the
    entries of that date alone, figure by figure and in the arithmetic of
    the program; a date without entries has no bucket. *)
Theorem dayMap_bucket_is_totals_of_the_day
        (es : list Entry) (rates : list Rate) (k : dateKey) (r : Rate) :
  rateForDate rates k = Some r ->
  map_get (dayMap es rates) k =
  if existsb (onDate k) es
  then Some (totalsAsDaySum (totals (filter (onDate k) es) rates))
  else None.
Proof.
  intros Hr. unfold dayMap. rewrite (dayMap_fold_bucket rates k r Hr es []).
  destruct (existsb (onDate k) es); [|reflexivity].
  f_equal. unfold totals, totalsAsDaySum, bucket, figures, bucketOf. cbn [map_get].
  cbn [cowKg bufKg cost].
  now destruct (fold_left (totalsStep rates) (filter (onDate k) es)
                          (num_zero, num_zero, num_zero)) as [[c b] c0].
Qed.

End DayBuckets.

(** ** Days without a rate *)

Section UncoveredDays.
Context {N : JSNumber} {Z : ZeroPrice N}.
Local Open Scope num_scope.







End UncoveredDays.




(** ** Weights by day and in total *)

Section WeightIdentity.
Context {N : JSNumber} {E : ExactArith N}.
Local Open Scope num_scope.

Lemma sumDayField_from (f : DaySum -> num) (m : DayMap) (a d : num) :
  fold_left (fun acc kv => acc + f (snd kv)) m (a + d) =
  fold_left (fun acc kv => acc + f (snd kv)) m a + d.
Proof.
  revert a. induction m as [|[k v] t IH]; intros a; simpl; [reflexivity|].
  rewrite <- IH. f_equal.
  rewrite <- !num_add_assoc. f_equal. apply num_add_comm.
Qed.

(** Putting a bucket whose figure [f] has grown by [d] adds [d] to the sum
    of that figure over the days. *)
Lemma sumDayField_set (f : DaySum -> num) (m : DayMap) (k : dateKey)
      (v : DaySum) (d a : num) :
  f (mkDaySum num_zero num_zero num_zero) = num_zero ->
  f v = f (bucketOf m k) + d ->
  fold_left (fun acc kv => acc + f (snd kv)) (map_set m k v) a =
  fold_left (fun acc kv => acc + f (snd kv)) m a + d.
Proof.
  intros Hzero. revert a. unfold bucketOf.
  induction m as [|[k' v'] t IH]; intros a Hv; simpl in *.
  - now rewrite Hv, Hzero, num_add_zero_l.
  - destruct (String.eqb k' k) eqn:Ek; simpl.
    + rewrite Hv, num_add_assoc. apply sumDayField_from.
    + now apply IH.
Qed.

Lemma dayMapStep_cowKg (rates : list Rate) (m : DayMap) (e : Entry) :
  sumDayField cowKg (dayMapStep rates m e) =
  sumDayField cowKg m + (if isCow e then kg e else num_zero).
Proof.
  unfold sumDayField, dayMapStep. fold (bucketOf m (date e)).
  apply sumDayField_set; [reflexivity|].
  destruct (isCow e); cbn [cowKg bufKg cost]; [reflexivity|].
  now rewrite num_add_zero_r.
Qed.

Lemma dayMapStep_bufKg (rates : list Rate) (m : DayMap) (e : Entry) :
  sumDayField bufKg (dayMapStep rates m e) =
  sumDayField bufKg m + (if isCow e then num_zero else kg e).
Proof.
  unfold sumDayField, dayMapStep. fold (bucketOf m (date e)).
  apply sumDayField_set; [reflexivity|].
  destruct (isCow e); cbn [cowKg bufKg cost]; [|reflexivity].
  now rewrite num_add_zero_r.
Qed.

Lemma weight_folds_agree (rates : list Rate) (es : list Entry)
      (acc : num * num * num) (m : DayMap) :
  Forall (fun e => covered rates e = true) es ->
  fst (fst acc) = sumDayField cowKg m ->
  snd (fst acc) = sumDayField bufKg m ->
  fst (fst (fold_left (totalsStep rates) es acc)) =
    sumDayField cowKg (fold_left (dayMapStep rates) es m) /\
  snd (fst (fold_left (totalsStep rates) es acc)) =
    sumDayField bufKg (fold_left (dayMapStep rates) es m).
Proof.
  intros H. revert acc m. induction H as [|e t He _ IH]; intros acc m Hc Hb;
    cbn [fold_left]; [now split|].
  apply IH.
  - rewrite dayMapStep_cowKg, <- Hc. unfold totalsStep, covered in *.
    destruct acc as [[c b] k].
    destruct (rateForDate rates (date e)); [|discriminate].
    cbn [fst snd]. destruct (isCow e); [reflexivity|].
    now rewrite num_add_zero_r.
  - rewrite dayMapStep_bufKg, <- Hb. unfold totalsStep, covered in *.
    destruct acc as [[c b] k].
    destruct (rateForDate rates (date e)); [|discriminate].
    cbn [fst snd]. destruct (isCow e); [|reflexivity].
    now rewrite num_add_zero_r.
Qed.

(** X10. In exact arithmetic, when every entry has a rate in effect on its
    date (as in every state that the inserts reach), the cow kilograms of
    [totals] are the sum of the cow kilograms of the days of [dayMap]
    applied to the same entries, the same holds for the buffalo kilograms,
    and the total kilograms are the sum of the two sums. *)
Theorem totals_weights_are_sums_of_daily_weights
        (es : list Entry) (rates : list Rate) :
  Forall (fun e => covered rates e = true) es ->
  totals_cowKg (totals es rates) = sumDayField cowKg (dayMap es rates) /\
  totals_bufKg (totals es rates) = sumDayField bufKg (dayMap es rates) /\
  totals_kg (totals es rates) =
    sumDayField cowKg (dayMap es rates) + sumDayField bufKg (dayMap es rates).
Proof.
  intros H. unfold totals, dayMap.
  destruct (weight_folds_agree rates es (num_zero, num_zero, num_zero) [] H
                               eq_refl eq_refl) as [Hc Hb].
  destruct (fold_left (totalsStep rates) es (num_zero, num_zero, num_zero))
    as [[c b] k].
  cbn [fst snd] in Hc, Hb. cbn [totals_cowKg totals_bufKg totals_kg].
  now rewrite Hc, Hb.
Qed.

End WeightIdentity.

(** ** The entry list and the export *)

Section ListingFacts.
Context {N : JSNumber}.
Local Open Scope num_scope.

Lemma compareEntries_not_Gt (a b : Entry) :
  compareEntries a b <> Gt <-> key_leb (date a) (date b) = true.
Proof.
  unfold compareEntries, localeCompare, key_leb, String.leb.
  destruct (String.compare (date a) (date b)); split; intro H;
    try reflexivity; try discriminate.
  exfalso. now apply H.
Qed.

Lemma sort_entries_insert_perm (x : Entry) (l : list Entry) :
  Permutation (sort_insert compareEntries x l) (x :: l).
Proof.
  induction l as [|y t IH]; simpl; [reflexivity|].
  destruct (compareEntries x y); try reflexivity.
  rewrite IH. apply perm_swap.
Qed.

Lemma sort_entries_perm (l : list Entry) :
  Permutation (sort compareEntries l) l.
Proof.
  unfold sort. induction l as [|x t IH]; simpl; [reflexivity|].
  rewrite sort_entries_insert_perm. now constructor.
Qed.

Lemma sort_entries_insert_sorted (x : Entry) (l : list Entry) :
  StronglySorted (fun a b => key_leb (date a) (date b) = true) l ->
  StronglySorted (fun a b => key_leb (date a) (date b) = true)
                 (sort_insert compareEntries x l).
Proof.
  induction 1 as [|y t Hs IH Hy]; simpl.
  - repeat constructor.
  - destruct (compareEntries x y) eqn:Hc.
    + assert (Hxy : key_leb (date x) (date y) = true)
        by (apply compareEntries_not_Gt; congruence).
      constructor; [now constructor|]. constructor; auto.
      eapply Forall_impl; [|exact Hy]. intros z Hz. eapply key_leb_trans; eauto.
    + assert (Hxy : key_leb (date x) (date y) = true)
        by (apply compareEntries_not_Gt; congruence).
      constructor; [now constructor|]. constructor; auto.
      eapply Forall_impl; [|exact Hy]. intros z Hz. eapply key_leb_trans; eauto.
    + assert (Hyx : key_leb (date y) (date x) = true).
      { apply localeCompare_Gt in Hc. apply key_leb_false in Hc.
        now apply key_ltb_leb. }
      constructor; auto.
      rewrite Forall_forall in *. intros z Hz.
      apply (Permutation_in _ (sort_entries_insert_perm x t)) in Hz.
      destruct Hz as [<-|Hz]; auto.
Qed.

Lemma sort_entries_sorted (l : list Entry) :
  StronglySorted (fun a b => key_leb (date a) (date b) = true)
                 (sort compareEntries l).
Proof.
  unfold sort. induction l as [|x t IH]; simpl; [constructor|].
  now apply sort_entries_insert_sorted.
Qed.

Lemma sorted_dates (l : list Entry) :
  StronglySorted (fun a b => key_leb (date a) (date b) = true) l ->
  StronglySorted (fun a b => key_leb a b = true) (map date l).
Proof.
  induction 1 as [|x t Hs IH Hx]; cbn [map]; constructor; auto.
  apply Forall_map. exact Hx.
Qed.

(** The sort keeps the entries of one date in the order they had. *)
Lemma sort_entries_insert_on_date (k : dateKey) (x : Entry) (l : list Entry) :
  filter (onDate k) (sort_insert compareEntries x l) =
  filter (onDate k) (x :: l).
Proof.
  induction l as [|y t IH]; [reflexivity|].
  cbn [sort_insert]. destruct (compareEntries x y) eqn:Hc; try reflexivity.
  cbn [filter] in *. rewrite IH.
  destruct (onDate k x) eqn:Hx, (onDate k y) eqn:Hy; try reflexivity.
  unfold onDate in Hx, Hy. apply String.eqb_eq in Hx, Hy.
  unfold compareEntries, localeCompare in Hc. rewrite Hx, Hy in Hc.
  rewrite string_compare_refl in Hc. discriminate.
Qed.

Lemma sort_entries_on_date (k : dateKey) (l : list Entry) :
  filter (onDate k) (sort compareEntries l) = filter (onDate k) l.
Proof.
  unfold sort. induction l as [|x t IH]; [reflexivity|].
  cbn [fold_right]. rewrite sort_entries_insert_on_date.
  cbn [filter]. now rewrite IH.
Qed.

(** X11. The entry list and the aggregations price an entry of type cow or
    buffalo alike.  For any other type they part: the list shows the cow
    price, while [totals], [dayMap] and the export charge the buffalo
    price. *)
Theorem entryList_price_agrees_for_known_types (r : option Rate) (e : Entry) :
  (type e = "cow" \/ type e = "buffalo" -> entryListPrice r e = dayPerKg r e) /\
  (type e <> "cow" -> type e <> "buffalo" ->
   forall rate, entryListPrice (Some rate) e = cow rate /\
                dayPerKg (Some rate) e = buffalo rate).
Proof.
  unfold entryListPrice, dayPerKg, isCow. split.
  - intros [H|H]; rewrite H; cbn; now destruct r.
  - intros Hc Hb rate.
    apply String.eqb_neq in Hc, Hb. now rewrite Hc, Hb.
Qed.

(** X12. The rows of the entry list show the entries of the month, each
    once, in ascending order of their date keys; entries of one date stay
    in the order of the ledger; and each row's amount is its weight times
    the unit price of the row. *)
Theorem entryListRows_sorted_by_date (monthEntries : list Entry) (rates : list Rate) :
  let rows := entryListRows monthEntries rates in
  Permutation (map row_entry rows) monthEntries /\
  StronglySorted (fun a b => key_leb a b = true) (map date (map row_entry rows)) /\
  (forall k, filter (onDate k) (map row_entry rows) = filter (onDate k) monthEntries) /\
  (forall row, In row rows ->
     row_price row =
       entryListPrice (rateForDate rates (date (row_entry row))) (row_entry row) /\
     row_amount row = row_price row * kg (row_entry row)).
Proof.
  intros rows. subst rows. unfold entryListRows.
  assert (Hmap : map row_entry (map (entryListRow rates) (sort compareEntries monthEntries))
                 = sort compareEntries monthEntries).
  { rewrite map_map. cbn. apply map_id. }
  rewrite Hmap. split; [apply sort_entries_perm|]. split; [|split].
  - apply sorted_dates, sort_entries_sorted.
  - intros k. apply sort_entries_on_date.
  - intros row Hrow. apply in_map_iff in Hrow. destruct Hrow as [e [<- _]].
    split; reflexivity.
Qed.

Lemma noLineFeed_app (a b : string) :
  noLineFeed a -> noLineFeed b -> noLineFeed (a ++ b).
Proof.
  unfold noLineFeed. intros Ha Hb H.
  assert (E : list_ascii_of_string (a ++ b) =
              (list_ascii_of_string a ++ list_ascii_of_string b)%list).
  { clear. induction a as [|c a IH]; [reflexivity|]. cbn. now rewrite IH. }
  rewrite E in H. apply in_app_or in H. tauto.
Qed.

Lemma noLineFeed_header : noLineFeed exportHeader.
Proof. unfold noLineFeed. vm_compute. intuition discriminate. Qed.

Lemma noLineFeed_rowEnd : noLineFeed rowEnd.
Proof. unfold noLineFeed. vm_compute. intuition discriminate. Qed.

Lemma noLineFeed_TAB : noLineFeed TAB.
Proof. unfold noLineFeed. vm_compute. intuition discriminate. Qed.

Lemma exportTxt_fixedPieces (rates : list Rate) (l : list Entry) :
  fixedPieces (flat_map (exportRow rates) l) =
  map (fun e => dayPerKg (rateForDate rates (date e)) e * kg e) l.
Proof.
  induction l as [|e t IH]; [reflexivity|].
  cbn [flat_map]. unfold fixedPieces in *. rewrite flat_map_app, IH.
  reflexivity.
Qed.

(** X13. What [exportTxt] writes is the header, which names the five
    columns between tabs and ends with a backslash and the letter n, and
    after it one row for every entry of the ledger, covered by a rate or
    not, in the order of the sort by date, which is ascending in the date
    keys.  A row is the date, the type, the weight, the unit price that
    [dayMap] uses (0 without a rate) and, through [toFixed(2)], the weight
    times that unit price, with a tab between two columns and a backslash
    and the letter n at the end.  When no date and no type of the ledger
    holds a line feed, no text that [exportTxt] writes holds one. *)
Theorem exportTxt_rows (entries : list Entry) (rates : list Rate) :
  Forall (fun e => noLineFeed (date e) /\ noLineFeed (type e)) entries ->
  let ordered := sort compareEntries entries in
  (exists rows : list (list Piece),
      exportTxt entries rates =
        Text ("Date" ++ TAB ++ "Type" ++ TAB ++ "Kg" ++ TAB ++ "Rate(₹/kg)"
              ++ TAB ++ "Amount(₹)" ++ rowEnd)
        :: List.concat rows /\
      Forall2 (fun e row =>
                 let price := dayPerKg (rateForDate rates (date e)) e in
                 row = [Text (date e); Text TAB; Text (type e); Text TAB;
                        Num (kg e); Text TAB; Num price; Text TAB;
                        Fixed2 (price * kg e); Text rowEnd])
              ordered rows) /\
  list_ascii_of_string TAB = [ascii_of_nat 9] /\
  list_ascii_of_string rowEnd = [ascii_of_nat 92; ascii_of_nat 110] /\
  Permutation ordered entries /\
  StronglySorted (fun a b => key_leb a b = true) (map date ordered) /\
  fixedPieces (exportTxt entries rates) =
    map (fun e => dayPerKg (rateForDate rates (date e)) e * kg e) ordered /\
  List.length (fixedPieces (exportTxt entries rates)) = List.length entries /\
  List.length (exportTxt entries rates) = (1 + 10 * List.length entries)%nat /\
  (forall s, In (Text s) (exportTxt entries rates) -> noLineFeed s).
Proof.
  intros Hlf ordered. subst ordered. unfold exportTxt.
  split; [|split; [reflexivity|split; [reflexivity|split;
           [apply sort_entries_perm|split;
            [apply sorted_dates, sort_entries_sorted|split; [|split; [|split]]]]]]].
  - exists (map (exportRow rates) (sort compareEntries entries)). split.
    + now rewrite flat_map_concat_map.
    + induction (sort compareEntries entries) as [|e t IH]; constructor;
        [reflexivity | exact IH].
  - cbn [fixedPieces flat_map app]. apply exportTxt_fixedPieces.
  - cbn [fixedPieces flat_map app].
    fold (fixedPieces (flat_map (exportRow rates) (sort compareEntries entries))).
    rewrite exportTxt_fixedPieces, length_map.
    apply Permutation_length, sort_entries_perm.
  - rewrite <- (Permutation_length (sort_entries_perm entries)).
    induction (sort compareEntries entries) as [|e t IH]; [reflexivity|].
    cbn [flat_map List.length] in IH |- *. rewrite length_app.
    cbn [exportRow List.length]. lia.
  - intros s [Hs|Hs].
    + injection Hs as <-. apply noLineFeed_header.
    + apply in_flat_map in Hs. destruct Hs as [e [He Hs]].
      apply (Permutation_in _ (sort_entries_perm entries)) in He.
      rewrite Forall_forall in Hlf. destruct (Hlf e He) as [Hd Ht].
      cbn in Hs.
      repeat (destruct Hs as [Hs|Hs];
              [try discriminate; injection Hs as <-;
               auto using noLineFeed_TAB, noLineFeed_rowEnd |]).
      destruct Hs.
Qed.

End ListingFacts.

(** ** The order of days *)

Section DayOrder.
Local Open Scope Z_scope.

Lemma dayFromYear_add (y : Z) (n : nat) :
  dayFromYear y + 365 * Z.of_nat n <= dayFromYear (y + Z.of_nat n)
  <= dayFromYear y + 366 * Z.of_nat n.
Proof.
  induction n as [|n IH].
  - replace (y + Z.of_nat 0) with y by lia. lia.
  - replace (y + Z.of_nat (S n)) with (y + Z.of_nat n + 1) by lia.
    rewrite dayFromYear_succ. destruct (isLeapYear (y + Z.of_nat n)); lia.
Qed.

Lemma dayFromYear_mono (y y' : Z) :
  y <= y' -> dayFromYear y + 365 * (y' - y) <= dayFromYear y'.
Proof.
  intros H. pose proof (dayFromYear_add y (Z.to_nat (y' - y))) as B.
  replace (y + Z.of_nat (Z.to_nat (y' - y))) with y' in B by lia. lia.
Qed.

Ltac month_split m :=
  let H := fresh "Hm" in
  assert (H : m = 0 \/ m = 1 \/ m = 2 \/ m = 3 \/ m = 4 \/ m = 5 \/ m = 6 \/
              m = 7 \/ m = 8 \/ m = 9 \/ m = 10 \/ m = 11) by lia;
  repeat (destruct H as [H|H]); subst m.

(** The day of the year of a date. *)
Lemma dayOfYear_bounds (y m dd : Z) :
  0 <= m <= 11 -> 1 <= dd <= daysInMonth y m ->
  0 <= daysBeforeMonth y m + (dd - 1) < 365 + (if isLeapYear y then 1 else 0).
Proof.
  intros Hm Hd. month_split m; unfold daysBeforeMonth, daysInMonth in *;
    try lia; destruct (isLeapYear y); lia.
Qed.

Lemma dayOfYear_month_lt (y m m' dd : Z) :
  0 <= m < m' -> m' <= 11 -> 1 <= dd <= daysInMonth y m ->
  daysBeforeMonth y m + (dd - 1) < daysBeforeMonth y m'.
Proof.
  intros Hm Hm' Hd.
  assert (Hstep : daysBeforeMonth y m + (dd - 1) < daysBeforeMonth y (m + 1)).
  { rewrite daysBeforeMonth_succ by lia. lia. }
  assert (Hmono : forall k : nat,
             m + 1 + Z.of_nat k <= 11 ->
             daysBeforeMonth y (m + 1) <= daysBeforeMonth y (m + 1 + Z.of_nat k)).
  { induction k as [|k IH]; intros Hk.
    - replace (m + 1 + Z.of_nat 0) with (m + 1) by lia. lia.
    - replace (m + 1 + Z.of_nat (S k)) with (m + 1 + Z.of_nat k + 1) by lia.
      rewrite (daysBeforeMonth_succ y (m + 1 + Z.of_nat k)) by lia.
      assert (Hk' : m + 1 + Z.of_nat k <= 11) by lia. specialize (IH Hk').
      pose proof (daysInMonth_bounds y (m + 1 + Z.of_nat k)). lia. }
  specialize (Hmono (Z.to_nat (m' - (m + 1)))).
  replace (m + 1 + Z.of_nat (Z.to_nat (m' - (m + 1)))) with m' in Hmono by lia.
  lia.
Qed.

Lemma dayNumber_year_bounds (d : Date) :
  validDate d ->
  dayFromYear (getFullYear d) <= dayNumber d < dayFromYear (getFullYear d + 1).
Proof.
  destruct d as [y m dd]. intros [Hm Hd]. cbn in Hm, Hd.
  unfold dayNumber. cbn [getFullYear getMonth getDate].
  rewrite dayFromYear_succ. pose proof (dayOfYear_bounds y m dd Hm Hd). lia.
Qed.

(** Dates in the order of year, month and day are in the order of their
    day numbers. *)
Lemma dayNumber_dateNumber_lt (d1 d2 : Date) :
  validDate d1 -> validDate d2 ->
  dateNumber d1 < dateNumber d2 -> dayNumber d1 < dayNumber d2.
Proof.
  intros H1 H2 Hlt.
  pose proof (dayNumber_year_bounds d1 H1) as B1.
  pose proof (dayNumber_year_bounds d2 H2) as B2.
  destruct d1 as [y1 m1 dd1], d2 as [y2 m2 dd2].
  destruct H1 as [Hm1 Hd1], H2 as [Hm2 Hd2].
  unfold dateNumber in Hlt. cbn [getFullYear getMonth getDate] in *.
  pose proof (daysInMonth_bounds y1 m1). pose proof (daysInMonth_bounds y2 m2).
  destruct (Z.lt_trichotomy y1 y2) as [Hy|[Hy|Hy]]; [| |lia].
  - pose proof (dayFromYear_mono (y1 + 1) y2). lia.
  - subst y2. unfold dayNumber. cbn [getFullYear getMonth getDate].
    destruct (Z.lt_trichotomy m1 m2) as [Hmm|[Hmm|Hmm]]; [| |lia].
    + pose proof (dayOfYear_month_lt y1 m1 m2 dd1). lia.
    + subst m2. lia.
Qed.

Lemma dateNumber_inj (d1 d2 : Date) :
  validDate d1 -> validDate d2 -> dateNumber d1 = dateNumber d2 -> d1 = d2.
Proof.
  destruct d1 as [y1 m1 dd1], d2 as [y2 m2 dd2].
  intros [Hm1 Hd1] [Hm2 Hd2]. unfold dateNumber.
  cbn [getFullYear getMonth getDate] in *. intros E.
  pose proof (daysInMonth_bounds y1 m1). pose proof (daysInMonth_bounds y2 m2).
  assert (y1 = y2) by lia. subst. assert (m1 = m2) by lia. subst.
  f_equal. lia.
Qed.

Lemma dayNumber_dateNumber_leb (d1 d2 : Date) :
  validDate d1 -> validDate d2 ->
  (dayNumber d1 <=? dayNumber d2) = (dateNumber d1 <=? dateNumber d2).
Proof.
  intros H1 H2.
  destruct (Z.leb_spec (dateNumber d1) (dateNumber d2)) as [Hle|Hgt].
  - apply Z.leb_le. destruct (Z.eq_dec (dateNumber d1) (dateNumber d2)) as [E|Hne].
    + rewrite (dateNumber_inj d1 d2 H1 H2 E). lia.
    + pose proof (dayNumber_dateNumber_lt d1 d2 H1 H2). lia.
  - apply Z.leb_gt. now apply dayNumber_dateNumber_lt.
Qed.

Lemma dayNumber_inj (d1 d2 : Date) :
  validDate d1 -> validDate d2 -> dayNumber d1 = dayNumber d2 -> d1 = d2.
Proof.
  intros H1 H2 E. apply dateNumber_inj; auto.
  destruct (Z.lt_trichotomy (dateNumber d1) (dateNumber d2)) as [H|[H|H]]; auto.
  - pose proof (dayNumber_dateNumber_lt d1 d2 H1 H2 H). lia.
  - pose proof (dayNumber_dateNumber_lt d2 d1 H2 H1 H). lia.
Qed.

End DayOrder.

(** ** Date keys in the order of days *)

Section KeyOrder.
Local Open Scope Z_scope.

Lemma stringOfZ_fourDigits (y : Z) :
  1000 <= y <= 9999 -> stringOfZ y = fourDigits y.
Proof.
  intros H.
  assert (C : forallb (fun k => String.eqb (stringOfZ (1000 + Z.of_nat k))
                                           (fourDigits (1000 + Z.of_nat k)))
                      (seq 0 (Z.to_nat 9000)) = true) by (vm_compute; reflexivity).
  rewrite forallb_forall in C. specialize (C (Z.to_nat (y - 1000))).
  replace (1000 + Z.of_nat (Z.to_nat (y - 1000))) with y in C by lia.
  apply String.eqb_eq, C, in_seq. lia.
Qed.

Lemma pad_twoDigits (n : Z) : 0 <= n <= 99 -> pad n = twoDigits n.
Proof.
  intros H.
  assert (C : forallb (fun k => String.eqb (pad (Z.of_nat k)) (twoDigits (Z.of_nat k)))
                      (seq 0 (Z.to_nat 100)) = true) by (vm_compute; reflexivity).
  rewrite forallb_forall in C. specialize (C (Z.to_nat n)).
  rewrite Z2Nat.id in C by lia. apply String.eqb_eq, C, in_seq. lia.
Qed.

Lemma ascii_compare_digit (a b : Z) :
  0 <= a <= 9 -> 0 <= b <= 9 ->
  Ascii.compare (digitChar a) (digitChar b) = (a ?= b).
Proof.
  intros Ha Hb. unfold Ascii.compare, digitChar.
  rewrite !N_ascii_embedding by lia.
  rewrite Z2N.inj_compare by lia. apply Z.add_compare_mono_l.
Qed.

Lemma compare_twoDigits (n n' : Z) (s s' : string) :
  0 <= n <= 99 -> 0 <= n' <= 99 ->
  String.compare (twoDigits n ++ s) (twoDigits n' ++ s') =
  match n ?= n' with
  | Eq => String.compare s s'
  | c => c
  end.
Proof.
  intros H H'. unfold twoDigits. cbn [String.append String.compare].
  rewrite !ascii_compare_digit by (Z.div_mod_to_equations; lia).
  destruct (Z.compare_spec (n / 10) (n' / 10)),
    (Z.compare_spec (n mod 10) (n' mod 10)),
    (Z.compare_spec n n'); try reflexivity; exfalso;
    Z.div_mod_to_equations; lia.
Qed.

Lemma compare_fourDigits (y y' : Z) (s s' : string) :
  0 <= y <= 9999 -> 0 <= y' <= 9999 ->
  String.compare (fourDigits y ++ s) (fourDigits y' ++ s') =
  match y ?= y' with
  | Eq => String.compare s s'
  | c => c
  end.
Proof.
  intros H H'. unfold fourDigits.
  assert (A : forall a b c : string, ((a ++ b) ++ c = a ++ (b ++ c))%string).
  { induction a as [|x a IH]; intros; cbn; [reflexivity | now rewrite IH]. }
  rewrite !A.
  rewrite !compare_twoDigits by (Z.div_mod_to_equations; lia).
  destruct (Z.compare_spec (y / 100) (y' / 100)),
    (Z.compare_spec (y mod 100) (y' mod 100)),
    (Z.compare_spec y y'); try reflexivity;
    try (exfalso; Z.div_mod_to_equations; lia).
Qed.

Lemma string_app_empty (s : string) : (s ++ "")%string = s.
Proof. induction s as [|c s IH]; cbn; [reflexivity | now rewrite IH]. Qed.

Lemma toKey_digits (d : Date) :
  validDate d -> 1000 <= getFullYear d <= 9999 ->
  toKey d =
  (fourDigits (getFullYear d) ++ "-" ++ twoDigits (getMonth d + 1) ++ "-"
   ++ twoDigits (getDate d) ++ "")%string.
Proof.
  intros [Hm Hd] Hy. unfold toKey.
  pose proof (daysInMonth_bounds (getFullYear d) (getMonth d)).
  rewrite stringOfZ_fourDigits, !pad_twoDigits by lia.
  now rewrite string_app_empty.
Qed.

Lemma toKey_compare (d1 d2 : Date) :
  validDate d1 -> validDate d2 ->
  1000 <= getFullYear d1 <= 9999 -> 1000 <= getFullYear d2 <= 9999 ->
  String.compare (toKey d1) (toKey d2) = (dateNumber d1 ?= dateNumber d2).
Proof.
  intros H1 H2 Hy1 Hy2.
  rewrite (toKey_digits d1 H1 Hy1), (toKey_digits d2 H2 Hy2).
  destruct H1 as [Hm1 Hd1], H2 as [Hm2 Hd2].
  pose proof (daysInMonth_bounds (getFullYear d1) (getMonth d1)).
  pose proof (daysInMonth_bounds (getFullYear d2) (getMonth d2)).
  rewrite compare_fourDigits by lia.
  change (String.compare ("-" ++ ?a) ("-" ++ ?b)) with (String.compare a b).
  rewrite compare_twoDigits by lia.
  change (String.compare ("-" ++ ?a) ("-" ++ ?b)) with (String.compare a b).
  rewrite compare_twoDigits by lia.
  cbn [String.compare]. unfold dateNumber.
  destruct (Z.compare_spec (getFullYear d1) (getFullYear d2)),
    (Z.compare_spec (getMonth d1 + 1) (getMonth d2 + 1)),
    (Z.compare_spec (getDate d1) (getDate d2));
    symmetry;
    first [ apply Z.compare_eq_iff; lia
          | apply Z.compare_lt_iff; lia
          | apply Z.compare_gt_iff; lia ].
Qed.

(** X14. For dates of the years 1000 to 9999, [toKey] writes ten
    characters, different dates have different keys, and the order of the
    keys as strings, which the program compares with [<=], is the order of
    the days. *)
Theorem toKey_keeps_the_order_of_days (d1 d2 : Date) :
  validDate d1 -> validDate d2 ->
  1000 <= getFullYear d1 <= 9999 -> 1000 <= getFullYear d2 <= 9999 ->
  String.length (toKey d1) = 10%nat /\
  key_leb (toKey d1) (toKey d2) = (dayNumber d1 <=? dayNumber d2) /\
  (toKey d1 = toKey d2 -> d1 = d2).
Proof.
  intros H1 H2 Hy1 Hy2.
  pose proof (toKey_compare d1 d2 H1 H2 Hy1 Hy2) as C.
  split; [|split].
  - rewrite (toKey_digits d1 H1 Hy1). reflexivity.
  - rewrite (dayNumber_dateNumber_leb d1 d2 H1 H2).
    unfold key_leb, String.leb, Z.leb. rewrite C.
    now destruct (dateNumber d1 ?= dateNumber d2).
  - intros E. apply dateNumber_inj; auto.
    apply Z.compare_eq_iff. rewrite <- C, E. apply string_compare_refl.
Qed.

End KeyOrder.

(** ** The month shown *)

Section MonthFacts.
Local Open Scope Z_scope.

Lemma last_of_month_valid (a : Date) :
  validDate a ->
  validDate (mkDate (getFullYear a) (getMonth a)
                    (daysInMonth (getFullYear a) (getMonth a))).
Proof.
  intros [Hm _]. split; cbn; [exact Hm|].
  pose proof (daysInMonth_bounds (getFullYear a) (getMonth a)). lia.
Qed.

(** X15. The test that [monthEntries] applies to a parsed date, on or
    after the first and on or before the last day of the month shown, holds
    exactly for the dates of the same year and month. *)
Theorem dateInMonth_same_year_and_month (month d : Date) :
  validDate month -> validDate d ->
  (dateInMonth month d = true <->
   getFullYear d = getFullYear month /\ getMonth d = getMonth month).
Proof.
  intros Hmonth Hd. unfold dateInMonth.
  rewrite startOfMonth_first, endOfMonth_last by assumption.
  rewrite !dayNumber_dateNumber_leb
    by auto using first_of_month_valid, last_of_month_valid.
  rewrite andb_true_iff, !Z.leb_le. unfold dateNumber.
  cbn [getFullYear getMonth getDate].
  destruct Hmonth as [Hm _], Hd as [Hdm Hdd].
  pose proof (daysInMonth_bounds (getFullYear month) (getMonth month)).
  pose proof (daysInMonth_bounds (getFullYear d) (getMonth d)).
  split.
  - intros [H1 H2]. lia.
  - intros [Hy Hmm]. rewrite Hy, Hmm in *. lia.
Qed.

Lemma nextMonth_eq (month : Date) :
  validDate month ->
  nextMonth month =
  if getMonth month =? 11 then mkDate (getFullYear month + 1) 0 1
  else mkDate (getFullYear month) (getMonth month + 1) 1.
Proof.
  intros [Hm _]. unfold nextMonth, newDate.
  change (addDays (1 - 1) ?d) with d.
  destruct (Z.eqb_spec (getMonth month) 11) as [E|Hne].
  - rewrite E. reflexivity.
  - rewrite Z.div_small, Z.mod_small by lia. now rewrite Z.add_0_r.
Qed.

Lemma prevMonth_eq (month : Date) :
  validDate month ->
  prevMonth month =
  if getMonth month =? 0 then mkDate (getFullYear month - 1) 11 1
  else mkDate (getFullYear month) (getMonth month - 1) 1.
Proof.
  intros [Hm _]. unfold prevMonth, newDate.
  change (addDays (1 - 1) ?d) with d.
  destruct (Z.eqb_spec (getMonth month) 0) as [E|Hne].
  - rewrite E. reflexivity.
  - rewrite Z.div_small, Z.mod_small by lia. now rewrite Z.add_0_r.
Qed.

Lemma nextMonth_is_day_after_last (month : Date) :
  validDate month ->
  nextMonth month =
  nextDay (mkDate (getFullYear month) (getMonth month)
                  (daysInMonth (getFullYear month) (getMonth month))).
Proof.
  intros H. rewrite (nextMonth_eq month H). destruct H as [Hm _].
  unfold nextDay. rewrite Z.ltb_irrefl.
  destruct (Z.eqb_spec (getMonth month) 11) as [E|Hne].
  - rewrite E. reflexivity.
  - destruct (Z.ltb_spec (getMonth month) 11); [reflexivity | lia].
Qed.

(** X16. The buttons of [MonthNav] move between the first days of adjacent
    months: each leads to a first of a month, one undoes the other, the
    next month starts the day after the last day of the month shown, and
    the month shown starts the day after the last day of the previous
    month. *)
Theorem monthNav_moves_to_adjacent_months (month : Date) :
  validDate month ->
  validDate (nextMonth month) /\ getDate (nextMonth month) = 1 /\
  validDate (prevMonth month) /\ getDate (prevMonth month) = 1 /\
  prevMonth (nextMonth month) = startOfMonth month /\
  nextMonth (prevMonth month) = startOfMonth month /\
  dayNumber (nextMonth month) = dayNumber (endOfMonth month) + 1 /\
  dayNumber (startOfMonth month) = dayNumber (endOfMonth (prevMonth month)) + 1.
Proof.
  intros H.
  assert (Hn : validDate (nextMonth month)).
  { rewrite (nextMonth_is_day_after_last month H).
    apply nextDay_valid. now apply last_of_month_valid. }
  assert (Hp : validDate (prevMonth month)).
  { rewrite (prevMonth_eq month H). destruct H as [Hm _].
    destruct (Z.eqb_spec (getMonth month) 0); split; cbn;
      try lia.
    pose proof (daysInMonth_bounds (getFullYear month) (getMonth month - 1)). lia. }
  assert (Hpn : prevMonth (nextMonth month) = startOfMonth month).
  { rewrite (prevMonth_eq _ Hn), (nextMonth_eq _ H), (startOfMonth_first _ H).
    destruct H as [Hm _].
    destruct (Z.eqb_spec (getMonth month) 11) as [E|Hne]; cbn.
    - rewrite E. f_equal. lia.
    - destruct (Z.eqb_spec (getMonth month + 1) 0); [lia|].
      f_equal. lia. }
  assert (Hnp : nextMonth (prevMonth month) = startOfMonth month).
  { rewrite (nextMonth_eq _ Hp), (prevMonth_eq _ H), (startOfMonth_first _ H).
    destruct H as [Hm _].
    destruct (Z.eqb_spec (getMonth month) 0) as [E|Hne]; cbn.
    - rewrite E. f_equal. lia.
    - destruct (Z.eqb_spec (getMonth month - 1) 11); [lia|].
      f_equal. lia. }
  assert (Hday : forall a, validDate a ->
                           dayNumber (nextMonth a) = dayNumber (endOfMonth a) + 1).
  { intros a Ha. rewrite (nextMonth_is_day_after_last a Ha), (endOfMonth_last a Ha).
    apply nextDay_dayNumber. now apply last_of_month_valid. }
  split; [exact Hn|]. split.
  { rewrite (nextMonth_eq _ H). now destruct (getMonth month =? 11). }
  split; [exact Hp|]. split.
  { rewrite (prevMonth_eq _ H). now destruct (getMonth month =? 0). }
  split; [exact Hpn|]. split; [exact Hnp|]. split; [now apply Hday|].
  rewrite <- Hnp. now apply Hday.
Qed.

End MonthFacts.

(** ** The rows and columns of the grid *)

Section GridFacts.
Local Open Scope Z_scope.

Lemma daysMatrix_rows (a : Date) :
  validDate a ->
  let first := mkDate (getFullYear a) (getMonth a) 1 in
  let idx := startIdxOf first in
  daysMatrix a =
  fillRows (Z.to_nat (ceilDiv (idx + daysInMonth (getFullYear a) (getMonth a)) 7))
           (Nat.iter (Z.to_nat idx) prevDay first).
Proof.
  intros Ha first idx.
  pose proof (first_of_month_valid a Ha) as Hfirst. fold first in Hfirst.
  pose proof (startIdxOf_range first) as Hidx. fold idx in Hidx.
  unfold daysMatrix.
  rewrite startOfMonth_first, endOfMonth_last by assumption.
  fold first. fold idx. cbn [getDate].
  now rewrite (setDate_back first idx Hfirst eq_refl) by lia.
Qed.

Lemma fillRows_nth (r : nat) (cursor : Date) (i : nat) :
  validDate cursor ->
  nth_error (fillRows r cursor) i =
  if (i <? r)%nat
  then Some (map (fun j => Nat.iter (7 * i + j) nextDay cursor) (seq 0 7))
  else None.
Proof.
  revert cursor i. induction r as [|r IH]; intros cursor i H.
  - now destruct i.
  - cbn [fillRows]. rewrite fillRow_spec by assumption.
    destruct i as [|i]; cbn [nth_error].
    + reflexivity.
    + rewrite IH by now apply iter_nextDay_valid.
      change (S i <? S r)%nat with (i <? r)%nat.
      destruct (i <? r)%nat; [|reflexivity].
      f_equal. apply map_ext. intros j.
      rewrite <- Nat.iter_add. f_equal. lia.
Qed.

Lemma cursor_is_monday (a : Date) :
  validDate a ->
  let first := mkDate (getFullYear a) (getMonth a) 1 in
  let cursor := Nat.iter (Z.to_nat (startIdxOf first)) prevDay first in
  validDate cursor /\ getDay cursor = 1 /\
  dayNumber cursor = dayNumber first - startIdxOf first.
Proof.
  intros Ha first cursor.
  pose proof (first_of_month_valid a Ha) as Hfirst. fold first in Hfirst.
  pose proof (startIdxOf_range first) as Hidx.
  assert (Hnum : dayNumber cursor = dayNumber first - startIdxOf first).
  { unfold cursor. rewrite iter_prevDay_dayNumber by assumption. lia. }
  split; [now apply iter_prevDay_valid|]. split; [|exact Hnum].
  unfold getDay. rewrite Hnum. unfold startIdxOf, getDay.
  Z.div_mod_to_equations. lia.
Qed.

(** X17. The grid of a month has four, five or six rows: four exactly for a
    month of 28 days that starts on a Monday, six exactly when the days
    before the first and the days of the month make 36 or more. *)
Theorem daysMatrix_has_four_to_six_rows (a : Date) :
  validDate a ->
  let idx := startIdxOf (mkDate (getFullYear a) (getMonth a) 1) in
  let days := daysInMonth (getFullYear a) (getMonth a) in
  let rows := Z.of_nat (List.length (daysMatrix a)) in
  4 <= rows <= 6 /\
  (rows = 4 <-> idx = 0 /\ days = 28) /\
  (rows = 6 <-> 36 <= idx + days).
Proof.
  intros Ha idx days rows.
  destruct (daysMatrix_cells a Ha) as [cursor [_ [_ [_ [_ [Hlen _]]]]]].
  fold idx days in Hlen. fold rows in Hlen.
  pose proof (startIdxOf_range (mkDate (getFullYear a) (getMonth a) 1)) as Hidx.
  fold idx in Hidx.
  pose proof (daysInMonth_bounds (getFullYear a) (getMonth a)) as Hdays.
  fold days in Hdays.
  pose proof (ceilDiv_spec (idx + days)) as Hceil. rewrite <- Hlen in Hceil.
  lia.
Qed.

(** X18. In every row of the grid the cell of column [c] falls on the
    weekday of the header's column [c]: Monday in the first column, Sunday
    in the seventh. *)
Theorem daysMatrix_columns_are_weekdays (a : Date) (i c : nat) (row : list Date)
        (cell : Date) :
  validDate a ->
  nth_error (daysMatrix a) i = Some row ->
  nth_error row c = Some cell ->
  getDay cell = (Z.of_nat c + 1) mod 7.
Proof.
  intros Ha Hrow Hcell.
  destruct (cursor_is_monday a Ha) as [Hc [Hmon _]].
  rewrite (daysMatrix_rows a Ha), fillRows_nth in Hrow by assumption.
  destruct (_ <? _)%nat; [|discriminate].
  assert (Hr : row = map (fun j => Nat.iter (7 * i + j) nextDay
                                     (Nat.iter (Z.to_nat (startIdxOf
                                        (mkDate (getFullYear a) (getMonth a) 1)))
                                        prevDay (mkDate (getFullYear a) (getMonth a) 1)))
                         (seq 0 7)) by congruence.
  rewrite Hr, nth_error_map_seq in Hcell.
  destruct (c <? 7)%nat eqn:Hc7; [|discriminate].
  assert (Hcell' : cell = Nat.iter (7 * i + (0 + c)) nextDay
                            (Nat.iter (Z.to_nat (startIdxOf
                               (mkDate (getFullYear a) (getMonth a) 1)))
                               prevDay (mkDate (getFullYear a) (getMonth a) 1)))
    by congruence.
  rewrite Hcell'. unfold getDay in *.
  rewrite iter_nextDay_dayNumber by assumption.
  Z.div_mod_to_equations. lia.
Qed.

Lemma daysBeforeMonth_leap_variation (y y' m : Z) :
  -1 <= daysBeforeMonth y m - daysBeforeMonth y' m <= 1.
Proof.
  unfold daysBeforeMonth.
  destruct (isLeapYear y), (isLeapYear y');
    repeat match goal with
           | |- context [match ?x with _ => _ end] => destruct x
           end; lia.
Qed.

(** X19. A cell of the grid has the month index of the month shown, which
    is the test [inMonth] of its [DayCell], exactly when it is one of the
    cells of the days of that month; the cells before and after them, from
    the neighbouring months, fail the test. *)
Theorem daysMatrix_inMonth_cells (a : Date) (i : nat) (cell : Date) :
  validDate a ->
  nth_error (List.concat (daysMatrix a)) i = Some cell ->
  let y := getFullYear a in
  let m := getMonth a in
  let idx := startIdxOf (mkDate y m 1) in
  (inMonth m cell = true <-> idx <= Z.of_nat i < idx + daysInMonth y m) /\
  (inMonth m cell = true -> cell = mkDate y m (Z.of_nat i - idx + 1)).
Proof.
  intros Ha Hcell y m idx.
  destruct (daysMatrix_cells a Ha)
    as [cursor [Hc [Hnum [Hfirst [_ [Hlen Hcells]]]]]].
  fold y m idx in Hnum, Hfirst, Hlen, Hcells.
  pose proof (startIdxOf_range (mkDate y m 1)) as Hidx. fold idx in Hidx.
  pose proof (daysInMonth_bounds y m) as Hdim.
  pose proof (ceilDiv_spec (idx + daysInMonth y m)) as Hceil.
  rewrite Hcells, nth_error_map_seq in Hcell.
  destruct (Nat.ltb_spec i (7 * Z.to_nat (ceilDiv (idx + daysInMonth y m) 7)));
    [|discriminate].
  injection Hcell as Hcell. cbn [Nat.add] in Hcell.
  assert (Hv : validDate cell) by (rewrite <- Hcell; now apply iter_nextDay_valid).
  assert (Hn : dayNumber cell = dayNumber (mkDate y m 1) - idx + Z.of_nat i).
  { rewrite <- Hcell, iter_nextDay_dayNumber by assumption. lia. }
  assert (Hin : idx <= Z.of_nat i < idx + daysInMonth y m ->
                cell = mkDate y m (Z.of_nat i - idx + 1)).
  { intros Hi. apply dayNumber_inj; auto.
    - destruct Ha as [Hm _]. split; cbn; [exact Hm | lia].
    - rewrite Hn. unfold dayNumber. cbn [getFullYear getMonth getDate]. lia. }
  assert (Hiff : inMonth m cell = true <-> idx <= Z.of_nat i < idx + daysInMonth y m).
  { unfold inMonth. rewrite Z.eqb_eq. split.
    - intros Hm. destruct cell as [yc mc dc]. cbn in Hm. subst mc.
      destruct Hv as [_ Hdc]. cbn [getFullYear getMonth getDate] in Hdc.
      pose proof (daysInMonth_bounds yc m) as Hdimc.
      unfold dayNumber in Hn. cbn [getFullYear getMonth getDate] in Hn.
      pose proof (daysBeforeMonth_leap_variation y yc m) as Hvar.
      destruct (Z.lt_trichotomy yc y) as [Hy|[Hy|Hy]].
      + pose proof (dayFromYear_mono yc y). lia.
      + subst yc. lia.
      + pose proof (dayFromYear_mono y yc). lia.
    - intros Hi. rewrite (Hin Hi). reflexivity. }
  split; [exact Hiff|]. intros Hmonth. apply Hin. now apply Hiff.
Qed.

End GridFacts.

(** ** The stored order of the data *)

Section StoredOrder.
Context {N : JSNumber}.
Local Open Scope num_scope.

(** X20. The rate in effect does not depend on the order in which the
    timeline is stored: two timelines with the same records, no two of them
    starting on the same day, give the same rate for every date. *)
Theorem rateForDate_ignores_stored_order (rates rates' : list Rate) (dateKey : dateKey) :
  Permutation rates rates' ->
  NoDup (map effectiveFrom rates) ->
  rateForDate rates dateKey = rateForDate rates' dateKey.
Proof.
  intros Hp Hnd.
  assert (Huniq : forall a b, In a rates -> In b rates ->
                              effectiveFrom a = effectiveFrom b -> a = b).
  { clear Hp. induction rates as [|x t IH]; [intros a b []|].
    cbn [map] in Hnd. inversion Hnd as [|? ? Hx Ht]; subst.
    intros a b [<-|Ha] [<-|Hb] E; auto.
    - exfalso. apply Hx. rewrite E. now apply in_map.
    - exfalso. apply Hx. rewrite <- E. now apply in_map. }
  destruct (rateForDate_cases rates dateKey)
    as [[E1 Hnone]|[r [E1 [Hin [Hle Hmax]]]]];
    destruct (rateForDate_cases rates' dateKey)
      as [[E2 Hnone']|[r' [E2 [Hin' [Hle' Hmax']]]]]; rewrite E1, E2.
  - reflexivity.
  - apply (Permutation_in _ (Permutation_sym Hp)) in Hin'.
    rewrite (Hnone _ Hin') in Hle'. discriminate.
  - apply (Permutation_in _ Hp) in Hin.
    rewrite (Hnone' _ Hin) in Hle. discriminate.
  - f_equal. apply Huniq; auto.
    + now apply (Permutation_in _ (Permutation_sym Hp)).
    + apply String.leb_antisym.
      * apply Hmax'; auto. now apply (Permutation_in _ Hp).
      * apply Hmax; auto. now apply (Permutation_in _ (Permutation_sym Hp)).
Qed.

End StoredOrder.

Section LedgerOrder.
Context {N : JSNumber} {E : ExactArith N}.
Local Open Scope num_scope.

Lemma num_add_swap (x a b : num) : (x + a) + b = (x + b) + a.
Proof.
  rewrite <- !num_add_assoc. f_equal. apply num_add_comm.
Qed.

Lemma totalsStep_swap (rates : list Rate) (acc : num * num * num) (a b : Entry) :
  totalsStep rates (totalsStep rates acc a) b =
  totalsStep rates (totalsStep rates acc b) a.
Proof.
  unfold totalsStep. destruct acc as [[c u] k].
  destruct (rateForDate rates (date a)) as [ra|],
    (rateForDate rates (date b)) as [rb|]; try reflexivity.
  destruct (isCow a), (isCow b);
    repeat match goal with
           | |- (_, _) = (_, _) => apply f_equal2
           end; try reflexivity; apply num_add_swap.
Qed.

(** X21. In exact arithmetic [totals] does not depend on the order of the
    ledger: the same entries in another order give the same four
    figures. *)
Theorem totals_ignores_ledger_order (es es' : list Entry) (rates : list Rate) :
  Permutation es es' -> totals es rates = totals es' rates.
Proof.
  intros Hp. unfold totals.
  assert (H : forall acc,
             fold_left (totalsStep rates) es acc =
             fold_left (totalsStep rates) es' acc).
  { induction Hp as [|x l l' _ IH|x y l|l l' l'' _ IH1 _ IH2]; intros acc;
      cbn [fold_left].
    - reflexivity.
    - apply IH.
    - now rewrite totalsStep_swap.
    - now rewrite IH1. }
  now rewrite H.
Qed.

End LedgerOrder.

(** ** The store *)

Section StoreFacts.
Context {N : JSNumber}.

(** X22. After the two effects have run, [loadLS] reads for either key what
    was written from the state, whatever the store held before and never
    the fallback; and no other key of the store has changed. *)
Theorem persist_overwrites_its_two_keys (s : AppState) (st : Store) (fallback : JSValue) :
  loadLS (persist s st) LS_KEYS_entries fallback = jsonValue (entriesValue (entries s)) /\
  loadLS (persist s st) LS_KEYS_rates fallback = jsonValue (ratesValue (rates s)) /\
  (forall key, key <> LS_KEYS_entries -> key <> LS_KEYS_rates ->
               getItem (persist s st) key = getItem st key).
Proof.
  unfold persist. split; [|split].
  - rewrite loadLS_saveLS_other by reflexivity. apply loadLS_saveLS.
  - apply loadLS_saveLS.
  - intros key He Hr. unfold saveLS, setItem, getItem.
    apply String.eqb_neq in He, Hr. now rewrite He, Hr.
Qed.

End StoreFacts.

(** ** The further properties on the sample data *)

Lemma addRate_reprices_from_its_start_february :
  increasing (map effectiveFrom (rates stateJanuary)) /\
  snd (addRate rateDraftFebruary stateJanuary) = RateSaved /\
  rateForDate (rates (fst (addRate rateDraftFebruary stateJanuary))) "2024-01-31" =
    rateForDate (rates stateJanuary) "2024-01-31" /\
  rateForDate (rates (fst (addRate rateDraftFebruary stateJanuary))) "2024-02-01" =
    Some (@mkRate binary64 "2024-02-01" 55%float 75%float).
Proof.
  assert (H1 : increasing (map effectiveFrom (rates stateJanuary)))
    by (repeat constructor).
  assert (H2 : snd (addRate rateDraftFebruary stateJanuary) = RateSaved)
    by reflexivity.
  split; [exact H1|]. split; [exact H2|]. split.
  - exact (addRate_reprices_from_its_start rateDraftFebruary stateJanuary H1 H2
             "2024-01-31").
  - exact (addRate_reprices_from_its_start rateDraftFebruary stateJanuary H1 H2
             "2024-02-01").
Defined.

Lemma run_keeps_every_entry_covered_session :
  increasing (map effectiveFrom (rates stateEmpty)) /\
  Forall (fun e => covered (rates stateEmpty) e = true) (entries stateEmpty) /\
  List.length (entries (run sessionTwoMonths stateEmpty)) = 2%nat /\
  filter (covered (rates (run sessionTwoMonths stateEmpty)))
         (entries (run sessionTwoMonths stateEmpty)) =
    entries (run sessionTwoMonths stateEmpty).
Proof.
  assert (H1 : increasing (map effectiveFrom (rates stateEmpty))) by constructor.
  assert (H2 : Forall (fun e => covered (rates stateEmpty) e = true)
                      (entries stateEmpty)) by constructor.
  split; [exact H1|]. split; [exact H2|]. split; [reflexivity|].
  exact (proj2 (proj2 (run_keeps_every_entry_covered sessionTwoMonths stateEmpty
                                                     H1 H2))).
Defined.

Lemma run_keeps_records_checked_session :
  Forall (fun e => entryChecked e = true) (entries stateEmpty) /\
  Forall (fun r => rateChecked r = true) (rates stateEmpty) /\
  (forall e, In e (entries (run sessionTwoMonths stateEmpty)) ->
     date e <> "" /\ isNaN (kg e) = false /\ (kg e <=? num_zero)%num = false).
Proof.
  assert (H1 : Forall (fun e => entryChecked e = true) (entries stateEmpty))
    by constructor.
  assert (H2 : Forall (fun r => rateChecked r = true) (rates stateEmpty))
    by constructor.
  split; [exact H1|]. split; [exact H2|].
  exact (proj1 (run_keeps_records_checked sessionTwoMonths stateEmpty H1 H2)).
Defined.

Lemma addEntry_adds_to_totals_new_year :
  snd (addEntry entryDraftNewYear stateJanuary) = EntrySaved /\
  exists r,
    rateForDate (rates stateJanuary) "2024-01-01" = Some r /\
    totals (entries stateJanuaryOnePurchase) (rates stateJanuaryOnePurchase) =
      @mkTotals binary64 2%float 0%float 2%float
                (0 + (if isCow (@mkEntry binary64 "2024-01-01" "cow" 2%float)
                      then cow r else buffalo r) * 2)%float.
Proof.
  assert (H : snd (addEntry entryDraftNewYear stateJanuary) = EntrySaved)
    by reflexivity.
  split; [exact H|].
  exact (addEntry_adds_to_totals entryDraftNewYear stateJanuary H).
Defined.

Lemma addRate_keeps_past_amounts_january :
  increasing (map effectiveFrom (rates stateJanuary)) /\
  snd (addRate rateDraftFebruary stateJanuary) = RateSaved /\
  Forall (fun e => key_ltb (date e) (draft_effectiveFrom rateDraftFebruary) = true)
         (entries stateJanuaryOnePurchase) /\
  totals (entries stateJanuaryOnePurchase)
         (rates (fst (addRate rateDraftFebruary stateJanuary))) =
    totals (entries stateJanuaryOnePurchase) (rates stateJanuary).
Proof.
  assert (H1 : increasing (map effectiveFrom (rates stateJanuary)))
    by (repeat constructor).
  assert (H2 : snd (addRate rateDraftFebruary stateJanuary) = RateSaved)
    by reflexivity.
  assert (H3 : Forall (fun e => key_ltb (date e)
                                  (draft_effectiveFrom rateDraftFebruary) = true)
                      (entries stateJanuaryOnePurchase))
    by (repeat constructor).
  split; [exact H1|]. split; [exact H2|]. split; [exact H3|].
  exact (proj1 (addRate_keeps_past_amounts rateDraftFebruary stateJanuary
                  (entries stateJanuaryOnePurchase) H1 H2 H3)).
Defined.

Lemma dayMap_bucket_is_totals_of_the_day_second_of_january :
  rateForDate ratesJanuary "2024-01-02" =
    Some (@mkRate binary64 "2024-01-01" 50%float 70%float) /\
  map_get (dayMap ledgerTwoDays ratesJanuary) "2024-01-02" =
    Some (totalsAsDaySum (totals (filter (onDate "2024-01-02") ledgerTwoDays)
                                 ratesJanuary)).
Proof.
  assert (H : rateForDate ratesJanuary "2024-01-02" =
              Some (@mkRate binary64 "2024-01-01" 50%float 70%float))
    by reflexivity.
  split; [exact H|].
  exact (dayMap_bucket_is_totals_of_the_day ledgerTwoDays ratesJanuary
           "2024-01-02" _ H).
Defined.

Lemma totals_weights_are_sums_of_daily_weights_exact :
  Forall (fun e => covered ratesJanuaryExact e = true) ledgerTwoDaysExact /\
  totals_kg (totals ledgerTwoDaysExact ratesJanuaryExact) =
    (sumDayField cowKg (dayMap ledgerTwoDaysExact ratesJanuaryExact)
     + sumDayField bufKg (dayMap ledgerTwoDaysExact ratesJanuaryExact))%num.
Proof.
  assert (H : Forall (fun e => covered ratesJanuaryExact e = true) ledgerTwoDaysExact)
    by (repeat constructor).
  split; [exact H|].
  exact (proj2 (proj2 (@totals_weights_are_sums_of_daily_weights exact exact_laws
                         ledgerTwoDaysExact ratesJanuaryExact H))).
Defined.

Lemma exportTxt_rows_two_days :
  Forall (fun e => noLineFeed (date e) /\ noLineFeed (type e)) ledgerTwoDays /\
  (exists rows : list (list (@Piece binary64)),
      exportTxt ledgerTwoDays ratesJanuary =
        Text ("Date" ++ TAB ++ "Type" ++ TAB ++ "Kg" ++ TAB ++ "Rate(₹/kg)"
              ++ TAB ++ "Amount(₹)" ++ rowEnd)
        :: List.concat rows /\
      Forall2 (fun (e : @Entry binary64) row =>
                 let price := dayPerKg (rateForDate ratesJanuary (date e)) e in
                 row = [Text (date e); Text TAB; Text (type e); Text TAB;
                        Num (kg e); Text TAB; Num price; Text TAB;
                        Fixed2 (price * kg e)%num; Text rowEnd])
              ledgerTwoDays rows) /\
  List.length (fixedPieces (exportTxt ledgerTwoDays ratesJanuary)) = 3%nat /\
  (forall s, In (Text s) (exportTxt ledgerTwoDays ratesJanuary) -> noLineFeed s).
Proof.
  assert (H : Forall (fun e => noLineFeed (date e) /\ noLineFeed (type e))
                     ledgerTwoDays).
  { repeat constructor; unfold noLineFeed; vm_compute; intuition discriminate. }
  split; [exact H|].
  pose proof (exportTxt_rows ledgerTwoDays ratesJanuary H) as T.
  split; [exact (proj1 T)|].
  split; [exact (proj1 (proj2 (proj2 (proj2 (proj2 (proj2 (proj2 T))))))) |
          exact (proj2 (proj2 (proj2 (proj2 (proj2 (proj2 (proj2 (proj2 T))))))))].
Defined.

Lemma toKey_keeps_the_order_of_days_winter :
  validDate lastOfJanuary2024 /\ validDate firstOfFebruary2024 /\
  (1000 <= getFullYear lastOfJanuary2024 <= 9999)%Z /\
  (1000 <= getFullYear firstOfFebruary2024 <= 9999)%Z /\
  key_leb (toKey lastOfJanuary2024) (toKey firstOfFebruary2024) =
    (dayNumber lastOfJanuary2024 <=? dayNumber firstOfFebruary2024)%Z.
Proof.
  assert (H1 : validDate lastOfJanuary2024) by (unfold validDate; cbn; lia).
  assert (H2 : validDate firstOfFebruary2024) by (unfold validDate; cbn; lia).
  assert (H3 : (1000 <= getFullYear lastOfJanuary2024 <= 9999)%Z) by (cbn; lia).
  assert (H4 : (1000 <= getFullYear firstOfFebruary2024 <= 9999)%Z) by (cbn; lia).
  repeat (split; [assumption|]).
  exact (proj1 (proj2 (toKey_keeps_the_order_of_days _ _ H1 H2 H3 H4))).
Defined.

Lemma dateInMonth_same_year_and_month_february :
  validDate midFebruary2024 /\ validDate leapDay2024 /\
  (dateInMonth midFebruary2024 leapDay2024 = true <->
   getFullYear leapDay2024 = getFullYear midFebruary2024 /\
   getMonth leapDay2024 = getMonth midFebruary2024).
Proof.
  assert (H1 : validDate midFebruary2024) by (unfold validDate; cbn; lia).
  assert (H2 : validDate leapDay2024) by (unfold validDate; cbn; lia).
  split; [exact H1|]. split; [exact H2|].
  exact (dateInMonth_same_year_and_month midFebruary2024 leapDay2024 H1 H2).
Defined.

Lemma monthNav_moves_to_adjacent_months_january :
  validDate firstOfJanuary2024 /\
  prevMonth (nextMonth firstOfJanuary2024) = startOfMonth firstOfJanuary2024 /\
  nextMonth (prevMonth firstOfJanuary2024) = startOfMonth firstOfJanuary2024.
Proof.
  assert (H : validDate firstOfJanuary2024) by (unfold validDate; cbn; lia).
  split; [exact H|].
  pose proof (monthNav_moves_to_adjacent_months firstOfJanuary2024 H) as T.
  split; [exact (proj1 (proj2 (proj2 (proj2 (proj2 T)))))
         | exact (proj1 (proj2 (proj2 (proj2 (proj2 (proj2 T))))))].
Defined.

Lemma daysMatrix_has_four_to_six_rows_february_2024 :
  validDate midFebruary2024 /\
  (4 <= Z.of_nat (List.length (daysMatrix midFebruary2024)) <= 6)%Z.
Proof.
  assert (H : validDate midFebruary2024) by (unfold validDate; cbn; lia).
  split; [exact H|].
  exact (proj1 (daysMatrix_has_four_to_six_rows midFebruary2024 H)).
Defined.

Lemma daysMatrix_columns_are_weekdays_february_2024 :
  validDate midFebruary2024 /\
  nth_error (daysMatrix midFebruary2024) 0 =
    Some [mkDate 2024 0 29; mkDate 2024 0 30; mkDate 2024 0 31; mkDate 2024 1 1;
          mkDate 2024 1 2; mkDate 2024 1 3; mkDate 2024 1 4] /\
  getDay firstOfFebruary2024 = ((Z.of_nat 3 + 1) mod 7)%Z.
Proof.
  assert (H : validDate midFebruary2024) by (unfold validDate; cbn; lia).
  assert (Hrow : nth_error (daysMatrix midFebruary2024) 0 =
                 Some [mkDate 2024 0 29; mkDate 2024 0 30; mkDate 2024 0 31;
                       mkDate 2024 1 1; mkDate 2024 1 2; mkDate 2024 1 3;
                       mkDate 2024 1 4]) by reflexivity.
  split; [exact H|]. split; [exact Hrow|].
  exact (daysMatrix_columns_are_weekdays midFebruary2024 0 3 _ firstOfFebruary2024
           H Hrow eq_refl).
Defined.

Lemma daysMatrix_inMonth_cells_february_2024 :
  validDate midFebruary2024 /\
  nth_error (List.concat (daysMatrix midFebruary2024)) 3 = Some firstOfFebruary2024 /\
  (inMonth 1 firstOfFebruary2024 = true ->
   firstOfFebruary2024 =
   mkDate 2024 1 (Z.of_nat 3 - startIdxOf (mkDate 2024 1 1) + 1)).
Proof.
  assert (H : validDate midFebruary2024) by (unfold validDate; cbn; lia).
  assert (Hc : nth_error (List.concat (daysMatrix midFebruary2024)) 3 =
               Some firstOfFebruary2024) by reflexivity.
  split; [exact H|]. split; [exact Hc|].
  exact (proj2 (daysMatrix_inMonth_cells midFebruary2024 3 firstOfFebruary2024 H Hc)).
Defined.

Lemma rateForDate_ignores_stored_order_two_months :
  Permutation ratesTwoMonths ratesTwoMonthsReversed /\
  NoDup (map effectiveFrom ratesTwoMonths) /\
  rateForDate ratesTwoMonths "2024-01-31" =
    rateForDate ratesTwoMonthsReversed "2024-01-31".
Proof.
  assert (H1 : Permutation ratesTwoMonths ratesTwoMonthsReversed)
    by apply perm_swap.
  assert (H2 : NoDup (map effectiveFrom ratesTwoMonths)).
  { repeat constructor; cbn; intuition discriminate. }
  split; [exact H1|]. split; [exact H2|].
  exact (rateForDate_ignores_stored_order _ _ "2024-01-31" H1 H2).
Defined.

Lemma totals_ignores_ledger_order_exact :
  Permutation ledgerTwoDaysExact ledgerTwoDaysExactSwapped /\
  totals ledgerTwoDaysExact ratesJanuaryExact =
    totals ledgerTwoDaysExactSwapped ratesJanuaryExact.
Proof.
  assert (H : Permutation ledgerTwoDaysExact ledgerTwoDaysExactSwapped)
    by apply perm_swap.
  split; [exact H|].
  exact (@totals_ignores_ledger_order exact exact_laws _ _ ratesJanuaryExact H).
Defined.
